(** * Canton MPC bridge: off-ledger client logic

    A shallow embedding of the TypeScript client of the Canton MPC
    proof of concept: request-id hashing ([mpc/crypto.ts]), child key
    derivation ([mpc-service/signer.ts]), address derivation
    ([mpc/address-derivation.ts]), the ledger client
    ([infra/canton-client.ts]), the event handlers of the MPC service and
    of the relayer, and the reconnecting ledger stream
    ([infra/ledger-stream.ts]).

    Conventions.  A JavaScript string is a Rocq [string]; a text string
    holds the UTF-8 encoding of its text, so [Buffer.from(s, "utf8")] is
    the list of its bytes.  A [bigint] is a [Z]; a [number] that comes
    from a [bigint] is the integer value of its double, or an infinity.
    A call that throws returns [None] (pure code) or [Throw] (effectful
    code); a callback of the owner of a stream is given by its outcome. *)

From Stdlib Require Import ZArith NArith List String Ascii Bool Lia.
From Stdlib Require Import Strings.Byte DecimalString.
Import ListNotations.
Local Open Scope list_scope.
Local Open Scope string_scope.

(* ================================================================== *)
(** * Part I: definitions *)
(* ================================================================== *)

(** ** JavaScript string primitives *)

(** [n] copies of the character [c]. *)
Fixpoint replicate (n : nat) (c : ascii) : string :=
  match n with
  | O => EmptyString
  | S k => String c (replicate k c)
  end.

(** [s.padStart(n, c)] for a one-character filler: the string is
    returned unchanged when it already has [n] characters or more. *)
Definition padStart (n : nat) (c : ascii) (s : string) : string :=
  replicate (n - String.length s) c ++ s.

(** [s.startsWith(p)]. *)
Definition startsWith (p s : string) : bool := String.prefix p s.

(** [s.slice(k)]. *)
Fixpoint slice (k : nat) (s : string) : string :=
  match k, s with
  | O, _ => s
  | S _, EmptyString => EmptyString
  | S k', String _ r => slice k' r
  end.

(** [s.includes(p)]. *)
Fixpoint includes (p s : string) : bool :=
  if String.prefix p s then true
  else match s with
       | EmptyString => false
       | String _ r => includes p r
       end.

(** [Buffer.from(s, "utf8")] / [TextEncoder.encode]. *)
Definition utf8 (s : string) : list byte := list_byte_of_string s.

(** ** Hexadecimal encoding (Buffer, viem) *)

Definition hexDigit (n : N) : ascii :=
  match n with
  | 0 => "0" | 1 => "1" | 2 => "2" | 3 => "3" | 4 => "4" | 5 => "5"
  | 6 => "6" | 7 => "7" | 8 => "8" | 9 => "9" | 10 => "a" | 11 => "b"
  | 12 => "c" | 13 => "d" | 14 => "e" | _ => "f"
  end%N%char.

(** viem's [charCodeToBase16]: digits, [A-F] and [a-f]. *)
Definition charCodeToBase16 (c : ascii) : option N :=
  let n := N_of_ascii c in
  if ((48 <=? n) && (n <=? 57))%N then Some (n - 48)%N
  else if ((65 <=? n) && (n <=? 70))%N then Some (n - 55)%N
  else if ((97 <=? n) && (n <=? 102))%N then Some (n - 87)%N
  else None.

Definition byteOfN (n : N) : byte :=
  match Byte.of_N n with Some b => b | None => x00 end.

(** Two lower-case digits per byte: [buf.toString("hex")]. *)
Fixpoint bytesToHex (bs : list byte) : string :=
  match bs with
  | [] => EmptyString
  | b :: r =>
      String (hexDigit (Byte.to_N b / 16)) (String (hexDigit (Byte.to_N b mod 16)) (bytesToHex r))
  end.

(** The loop of viem's [hexToBytes] over a string of even length; an
    invalid digit (or a dangling one) throws. *)
Fixpoint decodePairs (s : string) : option (list byte) :=
  match s with
  | EmptyString => Some []
  | String _ EmptyString => None
  | String c1 (String c2 r) =>
      match charCodeToBase16 c1, charCodeToBase16 c2, decodePairs r with
      | Some h, Some l, Some bs => Some (byteOfN (h * 16 + l) :: bs)
      | _, _, _ => None
      end
  end.

(** viem's [hexToBytes] on the digits after the [0x] prefix: a string of
    odd length first gets a leading [0]. *)
Definition hexToBytes (digits : string) : option (list byte) :=
  if Nat.odd (String.length digits) then decodePairs (String "0" digits)
  else decodePairs digits.

(** viem's [isHex] (strict): [/^0x[0-9a-fA-F]*$/]. *)
Fixpoint allHex (s : string) : bool :=
  match s with
  | EmptyString => true
  | String c r => match charCodeToBase16 c with Some _ => allHex r | None => false end
  end.

Definition isHex (s : string) : bool :=
  match s with
  | String "0" (String "x" r) => allHex r
  | _ => false
  end.

(** Digits of [n.toString(16)], most significant first, in front of
    [acc]; [fuel] bounds the number of digits. *)
Fixpoint toHexDigits (fuel : nat) (n : N) (acc : string) : string :=
  match fuel with
  | O => acc
  | S f =>
      if (n <? 16)%N then String (hexDigit n) acc
      else toHexDigits f (n / 16) (String (hexDigit (n mod 16)) acc)
  end.

Definition hexOfN (n : N) : string :=
  toHexDigits (S (N.to_nat (N.log2 n))) n EmptyString.

(** [n.toString(16)] for an integer: lower-case digits, no leading
    zero, a minus sign for a negative number. *)
Definition toString16 (z : Z) : string :=
  match z with
  | Z0 => "0"
  | Zpos p => hexOfN (Npos p)
  | Zneg p => String "-" (hexOfN (Npos p))
  end.

(** Value of a string of hexadecimal digits, read left to right. *)
Fixpoint parseHexAcc (s : string) (acc : N) : option N :=
  match s with
  | EmptyString => Some acc
  | String c r =>
      match charCodeToBase16 c with
      | Some d => parseHexAcc r (acc * 16 + d)%N
      | None => None
      end
  end.

(** Value of a string of digits in base [radix] (2, 8 or 10), read
    left to right. *)
Fixpoint parseDigitsAcc (radix : N) (s : string) (acc : N) : option N :=
  match s with
  | EmptyString => Some acc
  | String c r =>
      match charCodeToBase16 c with
      | Some d => if (d <? radix)%N then parseDigitsAcc radix r (acc * radix + d)%N else None
      | None => None
      end
  end.

(** At least one digit. *)
Definition someDigits (parse : string -> N -> option N) (s : string) : option Z :=
  match s with
  | EmptyString => None
  | _ => option_map Z.of_N (parse s 0%N)
  end.

(** [StrWhiteSpaceChar] on three UTF-8 bytes: U+1680, U+2000 to U+200A,
    U+2028, U+2029, U+202F, U+205F, U+3000 and U+FEFF. *)
Definition isWhiteSpace3 (a b c : N) : bool :=
  ((a =? 0xE1) && (b =? 0x9A) && (c =? 0x80)
   || (a =? 0xE2) && (b =? 0x80)
      && ((0x80 <=? c) && (c <=? 0x8A) || (c =? 0xA8) || (c =? 0xA9) || (c =? 0xAF))
   || (a =? 0xE2) && (b =? 0x81) && (c =? 0x9F)
   || (a =? 0xE3) && (b =? 0x80) && (c =? 0x80)
   || (a =? 0xEF) && (b =? 0xBB) && (c =? 0xBF))%N.

(** The string after one leading [StrWhiteSpaceChar] (white space or
    line terminator): TAB, LF, VT, FF, CR, SP, U+00A0, or one of the
    above. *)
Definition skipWhiteSpaceChar (s : string) : option string :=
  match s with
  | EmptyString => None
  | String c1 r1 =>
      let a := N_of_ascii c1 in
      if ((9 <=? a) && (a <=? 13) || (a =? 32))%N then Some r1
      else
        match r1 with
        | EmptyString => None
        | String c2 r2 =>
            let b := N_of_ascii c2 in
            if ((a =? 0xC2) && (b =? 0xA0))%N then Some r2
            else
              match r2 with
              | EmptyString => None
              | String c3 r3 => if isWhiteSpace3 a b (N_of_ascii c3) then Some r3 else None
              end
        end
  end.

Fixpoint trimStartAux (fuel : nat) (s : string) : string :=
  match fuel with
  | O => s
  | S f =>
      match skipWhiteSpaceChar s with
      | Some r => trimStartAux f r
      | None => s
      end
  end.

(** [s.trimStart()]. *)
Definition trimStart (s : string) : string := trimStartAux (String.length s) s.

(** [s.trimEnd()]: the longest suffix made of white space is removed. *)
Fixpoint trimEnd (s : string) : string :=
  match s with
  | EmptyString => EmptyString
  | String c r =>
      if String.eqb (trimStart s) EmptyString then EmptyString else String c (trimEnd r)
  end.

(** [s.trim()]. *)
Definition trim (s : string) : string := trimEnd (trimStart s).

Definition isLetter (lower upper c : ascii) : bool := (Ascii.eqb c lower || Ascii.eqb c upper)%bool.

(** [StringToBigInt] on a trimmed text ([StrIntegerLiteral]): the empty
    text is 0; decimal digits with an optional sign; or hexadecimal,
    octal or binary digits after [0x], [0o], [0b] (either case), without
    sign. *)
Definition StringToBigInt (t : string) : option Z :=
  match t with
  | EmptyString => Some 0%Z
  | String "0" (String x r) =>
      if isLetter "x" "X" x then someDigits parseHexAcc r
      else if isLetter "o" "O" x then someDigits (parseDigitsAcc 8) r
      else if isLetter "b" "B" x then someDigits (parseDigitsAcc 2) r
      else someDigits (parseDigitsAcc 10) t
  | String "-" r => option_map Z.opp (someDigits (parseDigitsAcc 10) r)
  | String "+" r => someDigits (parseDigitsAcc 10) r
  | _ => someDigits (parseDigitsAcc 10) t
  end.

(** [BigInt(value)] on a string: white space around the literal is
    ignored; a text that is not an integer literal throws a
    [SyntaxError]. *)
Definition BigInt (value : string) : option Z := StringToBigInt (trim value).

(** ** Keccak-256 (viem's [keccak256], from [@noble/hashes])

    Keccak-f[1600] on 25 lanes of 64 bits (lane [(x, y)] at index
    [x + 5 y]), rate 136 bytes, original Keccak padding ([0x01 .. 0x80]),
    32 bytes of output. *)

Definition lane := N.
Definition mask64 : N := 0xFFFFFFFFFFFFFFFF.

Definition rotl64 (x : lane) (n : N) : lane :=
  N.land (N.lor (N.shiftl x n) (N.shiftr x (64 - n))) mask64.

Definition lget (A : list lane) (i : nat) : lane := nth i A 0%N.

Definition roundConstants : list lane :=
  [0x0000000000000001; 0x0000000000008082; 0x800000000000808A;
   0x8000000080008000; 0x000000000000808B; 0x0000000080000001;
   0x8000000080008081; 0x8000000000008009; 0x000000000000008A;
   0x0000000000000088; 0x0000000080008009; 0x000000008000000A;
   0x000000008000808B; 0x800000000000008B; 0x8000000000008089;
   0x8000000000008003; 0x8000000000008002; 0x8000000000000080;
   0x000000000000800A; 0x800000008000000A; 0x8000000080008081;
   0x8000000000008080; 0x0000000080000001; 0x8000000080008008]%N.

Definition rotationOffsets : list N :=
  [0; 1; 62; 28; 27;  36; 44; 6; 55; 20;  3; 10; 43; 25; 39;
   41; 45; 15; 21; 8;  18; 2; 61; 56; 14]%N.

Definition theta (A : list lane) : list lane :=
  let C x := N.lxor (lget A x) (N.lxor (lget A (x + 5)) (N.lxor (lget A (x + 10))
               (N.lxor (lget A (x + 15)) (lget A (x + 20))))) in
  let D x := N.lxor (C ((x + 4) mod 5)%nat) (rotl64 (C ((x + 1) mod 5)%nat) 1) in
  map (fun i => N.lxor (lget A i) (D (i mod 5)%nat)) (seq 0 25).

(** rho and pi: lane [(x, y)], rotated, moves to [(y, 2x + 3y)]. *)
Definition rhoPi (A : list lane) : list lane :=
  map (fun j =>
         let X := (j mod 5)%nat in
         let Y := (j / 5)%nat in
         let x := ((X + 3 * Y) mod 5)%nat in
         let i := (x + 5 * X)%nat in
         rotl64 (lget A i) (nth i rotationOffsets 0%N))
      (seq 0 25).

Definition chi (B : list lane) : list lane :=
  map (fun i =>
         let x := (i mod 5)%nat in
         let y := (i / 5)%nat in
         let b1 := lget B ((x + 1) mod 5 + 5 * y) in
         let b2 := lget B ((x + 2) mod 5 + 5 * y) in
         N.lxor (lget B i) (N.land (N.lxor b1 mask64) b2))
      (seq 0 25).

Definition iota (rc : lane) (A : list lane) : list lane :=
  match A with
  | [] => []
  | a :: r => N.lxor a rc :: r
  end.

Definition keccakRound (A : list lane) (rc : lane) : list lane :=
  iota rc (chi (rhoPi (theta A))).

Definition keccakF (A : list lane) : list lane :=
  fold_left keccakRound roundConstants A.

(** Little-endian value of up to eight bytes. *)
Fixpoint leValue (bs : list byte) : N :=
  match bs with
  | [] => 0
  | b :: r => Byte.to_N b + 256 * leValue r
  end%N.

(** The 17 lanes of a 136-byte block. *)
Definition blockLanes (block : list byte) : list lane :=
  map (fun i => leValue (firstn 8 (skipn (8 * i) block))) (seq 0 17).

Definition absorbBlock (A : list lane) (block : list byte) : list lane :=
  let L := blockLanes block in
  keccakF (map (fun i => N.lxor (lget A i) (nth i L 0%N)) (seq 0 25)).

Definition rate : nat := 136.

(** [pad10*1] with the Keccak domain bit: [0x01], zeros, and [0x80] on
    the last byte of the block ([0x81] when one byte is missing). *)
Definition padBlock (tail : list byte) : list byte :=
  let k := (rate - List.length tail)%nat in
  match k with
  | 1%nat => (tail ++ [x81])%list
  | _ => (tail ++ [x01] ++ repeat x00 (k - 2) ++ [x80])%list
  end.

Fixpoint absorb (fuel : nat) (A : list lane) (msg : list byte) : list lane :=
  match fuel with
  | O => A
  | S f =>
      if (List.length msg <? rate)%nat then absorbBlock A (padBlock msg)
      else absorb f (absorbBlock A (firstn rate msg)) (skipn rate msg)
  end.

(** Byte [i] of the state, lanes little-endian. *)
Definition stateByte (A : list lane) (i : nat) : byte :=
  byteOfN (N.shiftr (lget A (i / 8)) (8 * N.of_nat (i mod 8)) mod 256)%N.

(** Keccak-256 of a byte string: always 32 bytes. *)
Definition keccak256Bytes (msg : list byte) : list byte :=
  let A := absorb (S (List.length msg)) (repeat 0%N 25) msg in
  map (stateByte A) (seq 0 32).

(** viem's [toBytes] on a string: a string that [isHex] accepts is
    decoded, any other string is UTF-8 encoded. *)
Definition toBytes (s : string) : option (list byte) :=
  if isHex s then hexToBytes (slice 2 s) else Some (utf8 s).

(** viem's [keccak256] applied to the string [0x] followed by [digits]:
    the value goes through [toBytes], so hexadecimal digits are decoded
    and a string with any other character is hashed as text, prefix
    included; the digest comes back as a [0x]-prefixed lower-case hex
    string.  (The result is an option because [hexToBytes] is; on this
    path it never throws.) *)
Definition keccak256 (digits : string) : option string :=
  option_map (fun bs => "0x" ++ bytesToHex (keccak256Bytes bs)) (toBytes ("0x" ++ digits)).

(** ** mpc/crypto.ts *)

Record EvmTransactionParams := {
  to : string;                (* 20 bytes hex, no 0x *)
  functionSignature : string;
  args : list string;         (* hex values, no 0x *)
  value : string;             (* 32 bytes hex, no 0x *)
  nonce : string;
  gasLimit : string;
  maxFeePerGas : string;
  maxPriorityFee : string;
  chainId : string
}.

Definition textToHex (s : string) : string := bytesToHex (utf8 s).

Definition uint32ToHex (n : Z) : string := padStart 8 "0" (toString16 n).

(** [xs.join(sep)] with the empty separator. *)
Definition join (xs : list string) : string := String.concat EmptyString xs.

Definition packParams (p : EvmTransactionParams) : string :=
  let to_ := padStart 40 "0" (to p) in
  let fnSig := textToHex (functionSignature p) in
  let args_ := join (args p) in
  let value_ := padStart 64 "0" (value p) in
  let nonce_ := padStart 64 "0" (nonce p) in
  let gasLimit_ := padStart 64 "0" (gasLimit p) in
  let maxFeePerGas_ := padStart 64 "0" (maxFeePerGas p) in
  let maxPriorityFee_ := padStart 64 "0" (maxPriorityFee p) in
  let chainId_ := padStart 64 "0" (chainId p) in
  to_ ++ fnSig ++ args_ ++ value_ ++ nonce_ ++ gasLimit_ ++ maxFeePerGas_
      ++ maxPriorityFee_ ++ chainId_.

Definition computeRequestId (sender : string) (evmParams : EvmTransactionParams)
    (caip2Id : string) (keyVersion : Z) (path : string) : option string :=
  let payload := packParams evmParams in
  let packed :=
    textToHex sender ++ payload ++ textToHex caip2Id ++ uint32ToHex keyVersion
      ++ textToHex path ++ textToHex "ECDSA" ++ textToHex "ethereum" in
  keccak256 packed.

(** ** mpc-service/signer.ts *)

Definition EPSILON_DERIVATION_PREFIX : string := "sig.network v2.0.0 epsilon derivation".

(** secp256k1 curve order [n] ([secp256k1.Point.Fn.ORDER]). *)
Definition CURVE_ORDER : Z :=
  0xFFFFFFFFFFFFFFFFFFFFFFFFFFFFFFFEBAAEDCE6AF48A03BBFD25E8CD0364141%Z.

(** viem's [keccak256] applied to a byte array. *)
Definition keccak256OfBytes (bs : list byte) : string :=
  "0x" ++ bytesToHex (keccak256Bytes bs).

(** The [%] of [bigint] truncates towards zero: [Z.rem]. *)
Definition deriveChildPrivateKey (rootPrivateKey predecessorId path caip2Id : string)
    : option string :=
  let derivationPath :=
    EPSILON_DERIVATION_PREFIX ++ ":" ++ caip2Id ++ ":" ++ predecessorId ++ ":" ++ path in
  match toBytes derivationPath with
  | None => None
  | Some preimage =>
      let epsilon := keccak256OfBytes preimage in
      match BigInt rootPrivateKey, BigInt epsilon with
      | Some rootKey, Some eps =>
          let childKey :=
            Z.rem (Z.rem (rootKey + eps) CURVE_ORDER + CURVE_ORDER) CURVE_ORDER in
          Some ("0x" ++ padStart 64 "0" (toString16 childKey))
      | _, _ => None
      end
  end.

(** ** mpc/address-derivation.ts *)

Definition publicKeyToEthAddress (uncompressedPubKey : string) : option string :=
  let stripped :=
    if startsWith "04" uncompressedPubKey then slice 2 uncompressedPubKey
    else uncompressedPubKey in
  match keccak256 stripped with
  | None => None
  | Some hash => Some ("0x" ++ slice 26 hash)
  end.

(** ** The outside world of the effectful code

    Effectful code runs in a state and error monad.  The state is the
    log of every request sent out (HTTP calls to the ledger, JSON-RPC
    calls to the EVM node) together with the number of values drawn from
    [crypto.randomUUID()].  What the outside answers is given by an
    environment of oracles, each a function of the log so far and of the
    request. *)

Inductive JValue :=
| JStr (s : string)
| JNum (z : Z)
| JUndefined.

(** [createArgument] of a created event, read as
    [Record<string, unknown>]: a field that is absent reads as
    [undefined] ([None]). *)
Record Args := {
  arg_requestId : option string;
  arg_requester : option string;
  arg_path : option string;
  arg_evmParams : option EvmTransactionParams;
  arg_r : option string;
  arg_s : option string;
  arg_v : option Z
}.

Record CreatedEvent := {
  contractId : string;
  templateId : option string;
  createArgument : Args
}.

Inductive Command :=
| CreateCommand (template : string) (createArguments : list (string * JValue))
| ExerciseCommand (template cid choice : string) (choiceArgument : list (string * JValue)).

(** Body of [POST /v2/commands/submit-and-wait-for-transaction]. *)
Record Submission := {
  commands : list Command;
  commandId : string;
  userId : string;
  actAs : list string;
  readAs : list string
}.

Record TransactionResponse := {
  updateId : string;
  events : list CreatedEvent
}.

Record PartyDetails := { party : option string }.

Inductive ReceiptStatus := ReceiptSuccess | ReceiptReverted.

Inductive Request :=
| PostParties (hint : string)
| GetParties
| PostSubmitAndWait (body : Submission)
| PostActiveContracts (parties : list string) (template : string)
| EthSendRawTransaction (rpcUrl raw : string)
| EthWaitForTransactionReceipt (rpcUrl hash : string).

Record World := {
  history : list Request;
  uuidCalls : nat
}.

Inductive Result (A : Type) :=
| Ok (a : A)
| Throw (msg : string).
Arguments Ok {A} a.
Arguments Throw {A} msg.

Record Env := {
  (** the [k]-th value returned by [crypto.randomUUID()] *)
  randomUUID : nat -> string;
  (** [POST /v2/parties]: the allocated party, or the error as
      [JSON.stringify] prints it *)
  postParties : list Request -> string -> Result string;
  (** [GET /v2/parties]: [data?.partyDetails], undefined on failure *)
  getParties : list Request -> option (list PartyDetails);
  postSubmitAndWait : list Request -> Submission -> Result TransactionResponse;
  postActiveContracts : list Request -> list string -> string -> Result (list CreatedEvent);
  ethSendRawTransaction : list Request -> string -> string -> Result string;
  (** viem's [waitForTransactionReceipt]; a timeout throws *)
  ethWaitForTransactionReceipt : list Request -> string -> string -> Result ReceiptStatus;
  (** evm/tx-builder.ts, thin wrappers of viem's [serializeTransaction] *)
  serializeUnsignedTx : EvmTransactionParams -> option string;
  reconstructSignedTx : EvmTransactionParams -> string -> string -> option Z -> option string;
  (** [secp256k1.sign] of [@noble/curves]: 65 bytes in the recovered
      format, 64 in the compact one *)
  secp256k1_sign_recovered : list byte -> list byte -> option (list byte);
  secp256k1_sign_compact : list byte -> list byte -> option (list byte);
  (** [DER.hexFromSig] of [@noble/curves] *)
  DER_hexFromSig : Z -> Z -> string
}.

Definition M (A : Type) : Type := World -> Result A * World.

Definition ret {A} (a : A) : M A := fun w => (Ok a, w).
Definition throw {A} (msg : string) : M A := fun w => (Throw msg, w).
Definition bind {A B} (c : M A) (k : A -> M B) : M B :=
  fun w => match c w with
           | (Ok a, w') => k a w'
           | (Throw msg, w') => (Throw msg, w')
           end.
(** [try { c } catch { h }]. *)
Definition tryCatch {A} (c : M A) (h : string -> M A) : M A :=
  fun w => match c w with
           | (Ok a, w') => (Ok a, w')
           | (Throw msg, w') => h msg w'
           end.
(** A pure call that may throw. *)
Definition lift {A} (msg : string) (o : option A) : M A :=
  match o with Some a => ret a | None => throw msg end.

Notation "x <- c ;; k" := (bind c (fun x => k))
  (at level 61, c at next level, right associativity).
Notation "c ;;; k" := (bind c (fun _ => k))
  (at level 61, right associativity).

(** Send a request: it is appended to the log. *)
Definition send (r : Request) : M (list Request) :=
  fun w => (Ok (history w),
            {| history := (history w ++ [r])%list; uuidCalls := uuidCalls w |}).

(** [crypto.randomUUID()]. *)
Definition crypto_randomUUID (env : Env) : M string :=
  fun w => (Ok (randomUUID env (uuidCalls w)),
            {| history := history w; uuidCalls := S (uuidCalls w) |}).

Definition fromResult {A} (prefix : string) (r : Result A) : M A :=
  match r with
  | Ok a => ret a
  | Throw e => throw (prefix ++ e)
  end.

(** ** infra/canton-client.ts *)

Definition findPartyByHint (env : Env) (hint : string) : M (option string) :=
  h <- send GetParties ;;
  let data := getParties env h in
  let found :=
    match data with
    | None => None
    | Some partyDetails =>
        find (fun p => match party p with
                       | Some id => startsWith (hint ++ "::") id
                       | None => false
                       end) partyDetails
    end in
  ret (match found with Some p => party p | None => None end).

(** A string is truthy when it is not empty. *)
Definition truthy (o : option string) : bool :=
  match o with
  | Some s => negb (String.eqb s EmptyString)
  | None => false
  end.

Definition allocateParty (env : Env) (hint : string) : M string :=
  h <- send (PostParties hint) ;;
  match postParties env h hint with
  | Throw msg =>
      if includes "Party already exists" msg then
        existing <- findPartyByHint env hint ;;
        match existing with
        | Some id => if truthy existing then ret id
                     else throw ("allocateParty failed: " ++ msg)
        | None => throw ("allocateParty failed: " ++ msg)
        end
      else throw ("allocateParty failed: " ++ msg)
  | Ok id => ret id
  end.

Definition submitAndWait (env : Env) (userId_ : string) (actAs_ : list string)
    (commands_ : list Command) : M TransactionResponse :=
  uuid <- crypto_randomUUID env ;;
  let body := {| commands := commands_; commandId := uuid; userId := userId_;
                 actAs := actAs_; readAs := actAs_ |} in
  h <- send (PostSubmitAndWait body) ;;
  fromResult "submitAndWait failed: " (postSubmitAndWait env h body).

Definition createContract (env : Env) (userId_ : string) (actAs_ : list string)
    (template : string) (payload : list (string * JValue)) : M TransactionResponse :=
  submitAndWait env userId_ actAs_ [CreateCommand template payload].

Definition exerciseChoice (env : Env) (userId_ : string) (actAs_ : list string)
    (template cid choice : string) (choiceArgument : list (string * JValue))
    : M TransactionResponse :=
  submitAndWait env userId_ actAs_ [ExerciseCommand template cid choice choiceArgument].

(** Modelled from the spec: [getActiveContracts] of
    infra/canton-client.ts is called by the handlers but its body is not
    in the sources.  "Current-state query: given a party set and a
    template discriminator, returns all currently-active matching
    records"; like its siblings it throws on a ledger error. *)
Definition getActiveContracts (env : Env) (parties : list string) (template : string)
    : M (list CreatedEvent) :=
  h <- send (PostActiveContracts parties template) ;;
  fromResult "getActiveContracts failed: " (postActiveContracts env h parties template).

(** [submitRawTransaction] of evm/tx-builder.ts. *)
Definition submitRawTransaction (env : Env) (rpcUrl raw : string) : M string :=
  h <- send (EthSendRawTransaction rpcUrl raw) ;;
  fromResult EmptyString (ethSendRawTransaction env h rpcUrl raw).

(** ** mpc-service/signer.ts, the signing functions *)

Definition signEvmTxHash (env : Env) (privateKey txHash : string)
    : option (string * string * Z) :=
  match toBytes txHash, toBytes privateKey with
  | Some msgHash, Some privKeyBytes =>
      match secp256k1_sign_recovered env msgHash privKeyBytes with
      | Some sig =>
          let v := Z.of_N (Byte.to_N (nth 0 sig x00)) in
          let r := bytesToHex (firstn 32 (skipn 1 sig)) in
          let s := bytesToHex (firstn 32 (skipn 33 sig)) in
          Some (r, s, v)
      | None => None
      end
  | _, _ => None
  end.

Definition signMpcResponse (env : Env) (rootPrivateKey requestId mpcOutput : string)
    : option string :=
  match keccak256 (requestId ++ mpcOutput) with
  | None => None
  | Some responseHash =>
      match toBytes responseHash, toBytes rootPrivateKey with
      | Some msgHash, Some privKeyBytes =>
          match secp256k1_sign_compact env msgHash privKeyBytes with
          | Some raw =>
              match BigInt ("0x" ++ bytesToHex (firstn 32 raw)),
                    BigInt ("0x" ++ bytesToHex (firstn 32 (skipn 32 raw))) with
              | Some r, Some s => Some (DER_hexFromSig env r s)
              | _, _ => None
              end
          | None => None
          end
      | _, _ => None
      end
  end.

(** ** mpc-service/deposit-handler.ts *)

Definition VAULT_ORCHESTRATOR : string := "Erc20Vault:VaultOrchestrator".

(** A value interpolated into a template literal or concatenated to a
    string: [undefined] prints as such. *)
Definition jsString (o : option string) : string :=
  match o with Some s => s | None => "undefined" end.

Definition jsValue (o : option string) : JValue :=
  match o with Some s => JStr s | None => JUndefined end.

(** [h.replace(/^0+/, empty)]: the leading zeros are removed. *)
Fixpoint stripLeadingZeros (s : string) : string :=
  match s with
  | String "0" r => stripLeadingZeros r
  | _ => s
  end.

(** [b.toString()] for a bigint. *)
Definition decimal (z : Z) : string := DecimalString.NilZero.string_of_int (Z.to_int z).

(** A [number] that holds an integer, or an infinity. *)
Inductive JSNumber :=
| Finite (z : Z)
| Infinite (negative : bool).

(** The double nearest to a non-negative integer, ties to the even
    significand: an integer of more than 53 bits keeps its 53 leading
    bits, rounded; from [2^1024] on the result is infinite ([None]). *)
Definition roundToDouble (m : Z) : option Z :=
  let bits := (Z.log2 m + 1)%Z in
  if (bits <=? 53)%Z then Some m
  else
    let shift := (bits - 53)%Z in
    let q := Z.shiftr m shift in
    let rest := (m - Z.shiftl q shift)%Z in
    let half := Z.shiftl 1 (shift - 1) in
    let q' := if ((half <? rest)%Z || ((rest =? half)%Z && Z.odd q))%bool
              then (q + 1)%Z else q in
    let v := Z.shiftl q' shift in
    if (2 ^ 1024 <=? v)%Z then None else Some v.

(** [Number(b)] for a bigint [b]. *)
Definition Number (b : Z) : JSNumber :=
  match roundToDouble (Z.abs b) with
  | Some v => Finite (Z.sgn b * v)
  | None => Infinite (b <? 0)%Z
  end.

Definition roundsTo (w v : Z) : bool :=
  match roundToDouble w with
  | Some r => (r =? v)%Z
  | None => false
  end.

(** [Number::toString] picks the decimal with the fewest significant
    digits that reads back as the number, the closest one when there are
    several: the multiple of the highest power of ten, from [10^j] down,
    that still rounds to [v]. *)
Fixpoint shortestDecimal (j : nat) (v : Z) : Z :=
  match j with
  | O => v
  | S j' =>
      let P := (10 ^ Z.of_nat j)%Z in
      let a := (v / P * P)%Z in
      let b := (a + P)%Z in
      if (roundsTo a v && roundsTo b v)%bool then
        if (v - a <? b - v)%Z then a
        else if (b - v <? v - a)%Z then b
        else if Z.even (a / P) then a else b
      else if roundsTo a v then a
      else if roundsTo b v then b
      else shortestDecimal j' v
  end.

Fixpoint stripTrailingZeros (s : string) : string :=
  match s with
  | EmptyString => EmptyString
  | String c r =>
      let r' := stripTrailingZeros r in
      if (Ascii.eqb c "0" && String.eqb r' EmptyString)%bool then EmptyString
      else String c r'
  end.

(** [String(x)] for a non-negative integer-valued double: plain digits
    below [10^21], the exponent form from there on. *)
Definition doubleToString (v : Z) : string :=
  let w := shortestDecimal (S (Z.to_nat (Z.log2 v))) v in
  let all := decimal w in
  if (w <? 10 ^ 21)%Z then all
  else
    match stripTrailingZeros all with
    | EmptyString => all
    | String d rest =>
        String d (if String.eqb rest EmptyString then EmptyString else "." ++ rest)
          ++ "e+" ++ decimal (Z.of_nat (String.length all - 1))
    end.

(** [String(x)], as string concatenation applies it to a number. *)
Definition numberToString (x : JSNumber) : string :=
  match x with
  | Finite z => if (z <? 0)%Z then "-" ++ doubleToString (- z) else doubleToString z
  | Infinite negative => if negative then "-Infinity" else "Infinity"
  end.

Definition hexChainIdToDecimal (hexChainId : string) : option JSNumber :=
  let stripped := stripLeadingZeros hexChainId in
  option_map Number
    (BigInt ("0x" ++ (if String.eqb stripped EmptyString then "0" else stripped))).

Definition handlePendingEvmDeposit (env : Env) (orchCid userId_ : string)
    (actAs_ : list string) (rootPrivateKey rpcUrl : string) (event : CreatedEvent)
    : M unit :=
  let args_ := createArgument event in
  let requester := arg_requester args_ in
  let path := arg_path args_ in
  let requestId := arg_requestId args_ in
  evmParams <- lift "TypeError: evmParams is undefined" (arg_evmParams args_) ;;
  (* Phase 1: sign the EVM transaction *)
  chain <- lift "SyntaxError: BigInt" (hexChainIdToDecimal (chainId evmParams)) ;;
  let caip2Id := "eip155:" ++ numberToString chain in
  serializedUnsigned <- lift "serializeTransaction" (serializeUnsignedTx env evmParams) ;;
  txHash <- lift "keccak256" (keccak256 (slice 2 serializedUnsigned)) ;;
  childPrivateKey <- lift "deriveChildPrivateKey"
    (deriveChildPrivateKey rootPrivateKey (jsString requester) (jsString path) caip2Id) ;;
  sig <- lift "signEvmTxHash" (signEvmTxHash env childPrivateKey txHash) ;;
  let '(r, s, v) := sig in
  exerciseChoice env userId_ actAs_ VAULT_ORCHESTRATOR orchCid "SignEvmTx"
    [("requestId", jsValue requestId); ("r", JStr r); ("s", JStr s); ("v", JNum v)] ;;;
  (* Phase 2: verify the outcome on the EVM chain *)
  signedTx <- lift "serializeTransaction"
    (reconstructSignedTx env evmParams ("0x" ++ r) ("0x" ++ s) (Some v)) ;;
  signedTxHash <- lift "keccak256" (keccak256 (slice 2 signedTx)) ;;
  mpcOutput <- tryCatch
    (h <- send (EthWaitForTransactionReceipt rpcUrl signedTxHash) ;;
     receipt <- fromResult EmptyString (ethWaitForTransactionReceipt env h rpcUrl signedTxHash) ;;
     ret (match receipt with ReceiptSuccess => "01" | ReceiptReverted => "00" end))
    (fun _ => ret "00") ;;
  signature <- lift "signMpcResponse"
    (signMpcResponse env rootPrivateKey (jsString requestId) mpcOutput) ;;
  exerciseChoice env userId_ actAs_ VAULT_ORCHESTRATOR orchCid "ProvideEvmOutcomeSig"
    [("requestId", jsValue requestId); ("signature", JStr signature);
     ("mpcOutput", JStr mpcOutput)] ;;;
  ret tt.

(** ** relayer/mpc-signature-handler.ts and relayer/tx-outcome-handler.ts *)

(** [a === b] on values that are strings or [undefined]. *)
Definition strictEq (a b : option string) : bool :=
  match a, b with
  | Some x, Some y => String.eqb x y
  | None, None => true
  | _, _ => false
  end.

Definition findPending (requestId : option string) (contracts : list CreatedEvent)
    : option CreatedEvent :=
  find (fun c => strictEq (arg_requestId (createArgument c)) requestId) contracts.

Definition handleEcdsaSignature (env : Env) (issuerParty rpcUrl : string)
    (event : CreatedEvent) : M unit :=
  let args_ := createArgument event in
  let requestId := arg_requestId args_ in
  let r := arg_r args_ in
  let s := arg_s args_ in
  let v := arg_v args_ in
  contracts <- getActiveContracts env [issuerParty] "Erc20Vault:PendingEvmDeposit" ;;
  match findPending requestId contracts with
  | None => ret tt
  | Some matching =>
      let pendingArgs := createArgument matching in
      evmParams <- lift "TypeError: evmParams is undefined" (arg_evmParams pendingArgs) ;;
      signedTx <- lift "serializeTransaction"
        (reconstructSignedTx env evmParams ("0x" ++ jsString r) ("0x" ++ jsString s) v) ;;
      submitRawTransaction env rpcUrl signedTx ;;;
      ret tt
  end.

Definition handleEvmTxOutcomeSignature (env : Env) (orchCid userId_ : string)
    (actAs_ : list string) (issuerParty : string) (event : CreatedEvent) : M unit :=
  let args_ := createArgument event in
  let requestId := arg_requestId args_ in
  let outcomeCid := contractId event in
  contracts <- getActiveContracts env [issuerParty] "Erc20Vault:PendingEvmDeposit" ;;
  match findPending requestId contracts with
  | None => ret tt
  | Some matching =>
      let pendingCid := contractId matching in
      let pendingArgs := createArgument matching in
      evmParams <- lift "TypeError: evmParams is undefined" (arg_evmParams pendingArgs) ;;
      let evmParamsArgs := args evmParams in
      amount <- lift "SyntaxError: BigInt"
        (BigInt ("0x" ++ jsString (nth_error evmParamsArgs 1))) ;;
      exerciseChoice env userId_ actAs_ "Erc20Vault:VaultOrchestrator" orchCid
        "ClaimEvmDeposit"
        [("pendingCid", JStr pendingCid); ("outcomeCid", JStr outcomeCid);
         ("amount", JStr (decimal amount))] ;;;
      ret tt
  end.

(** The submissions among a list of requests. *)
Definition submissionsOf (rs : list Request) : list Submission :=
  flat_map (fun r => match r with PostSubmitAndWait b => [b] | _ => [] end) rs.

(** The requests a computation adds to the log. *)
Definition emitted {A} (c : M A) (w : World) : list Request :=
  skipn (List.length (history w)) (history (snd (c w))).

(** ** infra/ledger-stream.ts

    The stream is a set of callbacks over five variables.  The model is a
    transition system: an event is a callback the runtime invokes (a
    WebSocket event, the reconnect timer, the completion of an awaited
    promise of the polling loop, or a call of [close] by the owner), and
    a step returns the new state and the actions performed.  Besides the
    five variables the state records what the runtime holds: the
    condition of the socket last created, the pending timeout, and where
    the polling loop is suspended.  The owner's callbacks, [onUpdate]
    and [onError], are given by what they do: return, call [close()], or
    throw. *)

Inductive Update :=
| Transaction (offset : option Z) (created : list CreatedEvent)
| OffsetCheckpoint (offset : option Z)
| OtherUpdate.

(** What a callback of the owner does: it returns, it calls [close()]
    on the stream and returns, or it throws. *)
Inductive HandlerOutcome := Returns | CallsClose | Throws.

(** The errors handed to [onError], by origin: an error message of the
    ledger on the socket, a message that cannot be processed, the
    [error] event of the socket, what the polling loop caught. *)
Inductive StreamError := LedgerStreamError | FailedToParse | SocketError | PollingError.

Record LedgerStreamOptions := {
  parties : list string;
  beginExclusive : Z;
  onUpdate : Update -> HandlerOutcome;
  onError : option (StreamError -> HandlerOutcome);   (* optional *)
  maxReconnectDelayMs : option Z;
  maxReconnectAttempts : option Z;
  pollingIdleTimeoutMs : option Z;
  pollingErrorBackoffMs : option Z
}.

(** [o ?? d]. *)
Definition orDefault (o : option Z) (d : Z) : Z :=
  match o with Some z => z | None => d end.

Definition maxDelay (opts : LedgerStreamOptions) : Z := orDefault (maxReconnectDelayMs opts) 10000.
Definition maxAttempts (opts : LedgerStreamOptions) : Z := orDefault (maxReconnectAttempts opts) 10.
Definition pollingIdleTimeout (opts : LedgerStreamOptions) : Z :=
  orDefault (pollingIdleTimeoutMs opts) 2000.
Definition pollingErrorBackoff (opts : LedgerStreamOptions) : Z :=
  orDefault (pollingErrorBackoffMs opts) 1000.

(** The socket last created, as the [ws] library holds it: none (or
    already closed), connecting, open, closing after [close()] on an open
    socket (frames still arrive until the peer answers the close frame),
    aborted after [close()] on a connecting one. *)
Inductive Wire := NoSocket | Connecting | Open | Closing | Aborted.

(** Where [startPolling] is suspended. *)
Inductive PollLoop := NotPolling | AwaitingUpdates | Sleeping | Exited.

Record Stream := {
  currentOffset : Z;
  closed : bool;
  ws : bool;                    (* [ws !== null] *)
  reconnectAttempt : Z;
  reconnectTimer : bool;        (* [reconnectTimer !== null] *)
  wire : Wire;
  timerPending : option Z;      (* delay of the pending timeout *)
  pollLoop : PollLoop
}.

Inductive Action :=
| NewWebSocket
| WsSend (beginExclusive_ : Z)
| WsClose
| OnUpdate (item : Update)
| OnError (err : StreamError)
| SetTimeout (delay : Z)
| ClearTimeout
| GetUpdates (offset idleTimeoutMs : Z)
| Sleep (ms : Z)
| Uncaught.                     (* an exception leaves the callback *)

(** A message on the socket: one whose processing throws before the
    handler is reached ([JSON.parse], or a value without the shape of an
    update), one that carries an [error] field, or an update. *)
Inductive Message :=
| MsgUnparsable
| MsgError
| MsgUpdate (item : Update).

Inductive Event :=
| WsOpen
| WsMessage (m : Message)
| WsClosed
| WsError
| TimerFired
| PollReturned (r : option (list Update))   (* [None]: [getUpdates] threw *)
| SleepDone
| CallClose.

Definition extractOffset (item : Update) : option Z :=
  match item with
  | Transaction o _ => o
  | OffsetCheckpoint o => o
  | OtherUpdate => None
  end.

Definition close (s : Stream) : Stream * list Action :=
  let a1 := if reconnectTimer s then [ClearTimeout] else [] in
  let a2 := if ws s then [WsClose] else [] in
  ({| currentOffset := currentOffset s;
      closed := true;
      ws := false;
      reconnectAttempt := reconnectAttempt s;
      reconnectTimer := false;
      wire := if ws s
              then match wire s with
                   | Open => Closing
                   | Connecting => Aborted
                   | x => x
                   end
              else wire s;
      timerPending := if reconnectTimer s then None else timerPending s;
      pollLoop := pollLoop s |},
   (a1 ++ a2)%list).

(** [handleUpdate]: the cursor moves, then the owner's handler runs.  The
    boolean tells whether the handler threw. *)
Definition handleUpdate (opts : LedgerStreamOptions) (s : Stream) (item : Update)
    : Stream * list Action * bool :=
  let s1 :=
    match extractOffset item with
    | Some offset =>
        {| currentOffset := offset; closed := closed s; ws := ws s;
           reconnectAttempt := reconnectAttempt s; reconnectTimer := reconnectTimer s;
           wire := wire s; timerPending := timerPending s; pollLoop := pollLoop s |}
    | None => s
    end in
  match onUpdate opts item with
  | Returns => (s1, [OnUpdate item], false)
  | CallsClose => let '(s2, a) := close s1 in (s2, (OnUpdate item :: a)%list, false)
  | Throws => (s1, [OnUpdate item], true)
  end.

(** [opts.onError?.(err)]; the boolean tells whether the callback
    threw. *)
Definition reportError (opts : LedgerStreamOptions) (s : Stream) (err : StreamError)
    : Stream * list Action * bool :=
  match onError opts with
  | None => (s, [], false)
  | Some callback =>
      match callback err with
      | Returns => (s, [OnError err], false)
      | CallsClose => let '(s1, a) := close s in (s1, (OnError err :: a)%list, false)
      | Throws => (s, [OnError err], true)
      end
  end.

(** The [catch] of the [message] callback: what [onError] throws there
    leaves the callback. *)
Definition messageCatch (opts : LedgerStreamOptions) (s : Stream) : Stream * list Action :=
  let '(s1, a, threw) := reportError opts s FailedToParse in
  (s1, if threw then (a ++ [Uncaught])%list else a).

Definition connect (s : Stream) : Stream * list Action :=
  if closed s then (s, [])
  else ({| currentOffset := currentOffset s; closed := closed s; ws := true;
           reconnectAttempt := reconnectAttempt s; reconnectTimer := reconnectTimer s;
           wire := Connecting; timerPending := timerPending s; pollLoop := pollLoop s |},
        [NewWebSocket]).

Definition setPollLoop (s : Stream) (p : PollLoop) : Stream :=
  {| currentOffset := currentOffset s; closed := closed s; ws := ws s;
     reconnectAttempt := reconnectAttempt s; reconnectTimer := reconnectTimer s;
     wire := wire s; timerPending := timerPending s; pollLoop := p |}.

(** Head of the [while (!closed)] loop of [startPolling]. *)
Definition pollIter (opts : LedgerStreamOptions) (s : Stream) : Stream * list Action :=
  if closed s then (setPollLoop s Exited, [])
  else (setPollLoop s AwaitingUpdates,
        [GetUpdates (currentOffset s) (pollingIdleTimeout opts)]).

Definition startPolling (opts : LedgerStreamOptions) (s : Stream) : Stream * list Action :=
  if closed s then (s, []) else pollIter opts s.

(** The [catch] of the polling loop: the error is reported and the
    loop sleeps; when [onError] throws, the exception leaves
    [startPolling] and the loop is over. *)
Definition pollCatch (opts : LedgerStreamOptions) (s : Stream) : Stream * list Action :=
  if closed s then (setPollLoop s Exited, [])
  else
    let '(s1, a, threw) := reportError opts s PollingError in
    if threw then (setPollLoop s1 Exited, (a ++ [Uncaught])%list)
    else (setPollLoop s1 Sleeping, (a ++ [Sleep (pollingErrorBackoff opts)])%list).

(** The [for] loop over a batch. *)
Fixpoint pollItems (opts : LedgerStreamOptions) (s : Stream) (items : list Update)
    : Stream * list Action * bool :=
  match items with
  | [] => (s, [], false)
  | item :: rest =>
      if closed s then (s, [], false)
      else
        let '(s1, a1, threw) := handleUpdate opts s item in
        if threw then (s1, a1, true)
        else let '(s2, a2, threw2) := pollItems opts s1 rest in
             (s2, (a1 ++ a2)%list, threw2)
  end.

Definition scheduleReconnect (opts : LedgerStreamOptions) (s : Stream) : Stream * list Action :=
  if closed s then (s, [])
  else if (reconnectAttempt s >=? maxAttempts opts)%Z then startPolling opts s
  else
    let delay := Z.min (1000 * 2 ^ reconnectAttempt s) (maxDelay opts) in
    ({| currentOffset := currentOffset s; closed := closed s; ws := ws s;
        reconnectAttempt := (reconnectAttempt s + 1)%Z; reconnectTimer := true;
        wire := wire s; timerPending := Some delay; pollLoop := pollLoop s |},
     [SetTimeout delay]).

Definition setWire (s : Stream) (w : Wire) : Stream :=
  {| currentOffset := currentOffset s; closed := closed s; ws := ws s;
     reconnectAttempt := reconnectAttempt s; reconnectTimer := reconnectTimer s;
     wire := w; timerPending := timerPending s; pollLoop := pollLoop s |}.

(** One callback.  [None]: the runtime cannot raise this event in this
    state (no socket, no pending timeout, the loop is not suspended
    there). *)
Definition step (opts : LedgerStreamOptions) (s : Stream) (e : Event)
    : option (Stream * list Action) :=
  match e with
  | WsOpen =>
      match wire s with
      | Connecting =>
          Some ({| currentOffset := currentOffset s; closed := closed s; ws := ws s;
                   reconnectAttempt := 0; reconnectTimer := reconnectTimer s;
                   wire := Open; timerPending := timerPending s; pollLoop := pollLoop s |},
                [WsSend (currentOffset s)])
      | _ => None
      end
  | WsMessage m =>
      match wire s with
      | Open | Closing =>
          match m with
          | MsgUnparsable => Some (messageCatch opts s)
          | MsgError =>
              let '(s1, a, threw) := reportError opts s LedgerStreamError in
              if threw
              then let '(s2, a2) := messageCatch opts s1 in Some (s2, (a ++ a2)%list)
              else Some (s1, a)
          | MsgUpdate item =>
              let '(s1, a, threw) := handleUpdate opts s item in
              if threw
              then let '(s2, a2) := messageCatch opts s1 in Some (s2, (a ++ a2)%list)
              else Some (s1, a)
          end
      | _ => None
      end
  | WsClosed =>
      match wire s with
      | NoSocket => None
      | _ =>
          let s0 := setWire s NoSocket in
          if closed s0 then Some (s0, [])
          else
            Some (scheduleReconnect opts
                    {| currentOffset := currentOffset s0; closed := closed s0; ws := false;
                       reconnectAttempt := reconnectAttempt s0;
                       reconnectTimer := reconnectTimer s0; wire := wire s0;
                       timerPending := timerPending s0; pollLoop := pollLoop s0 |})
      end
  | WsError =>
      match wire s with
      | NoSocket => None
      | _ =>
          if closed s then Some (s, [])
          else
            let '(s1, a, threw) := reportError opts s SocketError in
            Some (s1, if threw then (a ++ [Uncaught])%list else a)
      end
  | TimerFired =>
      match timerPending s with
      | None => None
      | Some _ =>
          Some (connect
                  {| currentOffset := currentOffset s; closed := closed s; ws := ws s;
                     reconnectAttempt := reconnectAttempt s;
                     reconnectTimer := reconnectTimer s; wire := wire s;
                     timerPending := None; pollLoop := pollLoop s |})
      end
  | PollReturned r =>
      match pollLoop s with
      | AwaitingUpdates =>
          match r with
          | None => Some (pollCatch opts s)
          | Some updates =>
              let '(s1, a1, threw) := pollItems opts s updates in
              let '(s2, a2) := if threw then pollCatch opts s1 else pollIter opts s1 in
              Some (s2, (a1 ++ a2)%list)
          end
      | _ => None
      end
  | SleepDone =>
      match pollLoop s with
      | Sleeping => Some (pollIter opts s)
      | _ => None
      end
  | CallClose => Some (close s)
  end.

(** A run of callbacks, with the actions in order. *)
Fixpoint run (opts : LedgerStreamOptions) (s : Stream) (es : list Event)
    : option (Stream * list Action) :=
  match es with
  | [] => Some (s, [])
  | e :: rest =>
      match step opts s e with
      | None => None
      | Some (s1, a1) =>
          match run opts s1 rest with
          | None => None
          | Some (s2, a2) => Some (s2, (a1 ++ a2)%list)
          end
      end
  end.

(** [createLedgerStream]: the variables are initialised and [connect()]
    is called. *)
Definition createLedgerStream (opts : LedgerStreamOptions) : Stream * list Action :=
  connect {| currentOffset := beginExclusive opts; closed := false; ws := false;
             reconnectAttempt := 0; reconnectTimer := false; wire := NoSocket;
             timerPending := None; pollLoop := NotPolling |}.

(** The updates handed to the owner's handler. *)
Definition handlerCalls (acts : list Action) : list Update :=
  flat_map (fun a => match a with OnUpdate item => [item] | _ => [] end) acts.

(** ** Specification-side vocabulary

    Byte-level notions in which the properties of Part II are stated. *)

Definition beValue (bs : list byte) : N :=
  fold_left (fun a b => (a * 256 + Byte.to_N b)%N) bs 0%N.

(** Big-endian encoding on [k] bytes. *)
Fixpoint beBytes (k : nat) (n : N) : list byte :=
  match k with
  | O => []
  | S k' => (beBytes k' (n / 256) ++ [byteOfN (n mod 256)])%list
  end.

(** Left padding with zero bytes up to [k] bytes. *)
Definition leftPad (k : nat) (bs : list byte) : list byte :=
  (repeat x00 (k - List.length bs) ++ bs)%list.

(** The last [k] bytes. *)
Definition lastBytes (k : nat) (bs : list byte) : list byte :=
  skipn (List.length bs - k) bs.

(** A visible ASCII character, and a string of such. *)
Definition visible (c : ascii) : bool :=
  ((33 <=? N_of_ascii c) && (N_of_ascii c <=? 126))%N.

Fixpoint allVisible (s : string) : bool :=
  match s with
  | EmptyString => true
  | String c r => visible c && allVisible r
  end.

(** Exactly [d] hexadecimal digits of [n]. *)
Fixpoint hexFixed (d : nat) (n : N) : string :=
  match d with
  | O => EmptyString
  | S d' => hexFixed d' (n / 16) ++ String (hexDigit (n mod 16)) EmptyString
  end.

(** [decodes s bs]: the hex string [s] is the byte string [bs]. *)
Definition decodes (s : string) (bs : list byte) : Prop := decodePairs s = Some bs.

(** The bytes of a hexadecimal field ([[]] when it is not one). *)
Definition bytesOf (h : string) : list byte :=
  match hexToBytes h with Some bs => bs | None => [] end.

(** A field of at most [k] bytes, written in hexadecimal. *)
Definition hexField (k : nat) (h : string) : bool :=
  allHex h && (String.length h <=? 2 * k)%nat.

(** A hexadecimal string of whole bytes. *)
Definition byteString (h : string) : bool :=
  allHex h && Nat.even (String.length h).

(** A transaction intent as [EvmTransactionParams] declares it: [to] of
    at most 20 bytes, the numeric fields of at most 32 bytes, the
    arguments byte strings, all in hexadecimal without prefix. *)
Definition validIntent (p : EvmTransactionParams) : bool :=
  hexField 20 (to p) && forallb byteString (args p) && hexField 32 (value p)
  && hexField 32 (nonce p) && hexField 32 (gasLimit p) && hexField 32 (maxFeePerGas p)
  && hexField 32 (maxPriorityFee p) && hexField 32 (chainId p).

(** [packed(TransactionIntent)], on bytes. *)
Definition packedIntent (p : EvmTransactionParams) : list byte :=
  (leftPad 20 (bytesOf (to p)) ++ utf8 (functionSignature p)
   ++ List.concat (map bytesOf (args p))
   ++ leftPad 32 (bytesOf (value p)) ++ leftPad 32 (bytesOf (nonce p))
   ++ leftPad 32 (bytesOf (gasLimit p)) ++ leftPad 32 (bytesOf (maxFeePerGas p))
   ++ leftPad 32 (bytesOf (maxPriorityFee p)) ++ leftPad 32 (bytesOf (chainId p)))%list.

(** The preimage of the request identifier, on bytes. *)
Definition requestIdPreimage (sender : string) (p : EvmTransactionParams)
    (caip2Id : string) (keyVersion : Z) (path : string) : list byte :=
  (utf8 sender ++ packedIntent p ++ utf8 caip2Id ++ beBytes 4 (Z.to_N keyVersion)
   ++ utf8 path ++ utf8 "ECDSA" ++ utf8 "ethereum")%list.

(** The intent of the test suite (test/crypto.test.ts). *)
Definition sampleEvmParams : EvmTransactionParams := {|
  to := "a0b86991c6218b36c1d19d4a2e9eb0ce3606eb48";
  functionSignature := "transfer(address,uint256)";
  args := [ "000000000000000000000000d8da6bf26964af9d7eed9e03e53415d37aa96045";
            "0000000000000000000000000000000000000000000000000000000005f5e100" ];
  value := "0000000000000000000000000000000000000000000000000000000000000000";
  nonce := "0000000000000000000000000000000000000000000000000000000000000001";
  gasLimit := "000000000000000000000000000000000000000000000000000000000000c350";
  maxFeePerGas := "00000000000000000000000000000000000000000000000000000001dcd65000";
  maxPriorityFee := "000000000000000000000000000000000000000000000000000000003b9aca00";
  chainId := "0000000000000000000000000000000000000000000000000000000000aa36a7"
|}.

(** The preimage of epsilon as signer.ts builds it, fields separated by
    colons. *)
Definition derivationPathOf (predecessorId path caip2Id : string) : string :=
  EPSILON_DERIVATION_PREFIX ++ ":" ++ caip2Id ++ ":" ++ predecessorId ++ ":" ++ path.

(** The preimage [domainPrefix ‖ chainContext ‖ predecessorId ‖ path],
    a plain concatenation. *)
Definition plainConcatenation (predecessorId path caip2Id : string) : string :=
  EPSILON_DERIVATION_PREFIX ++ caip2Id ++ predecessorId ++ path.

(** Keccak-256 of a text, as a big-endian integer. *)
Definition epsilonOf (preimage : string) : Z :=
  Z.of_N (beValue (keccak256Bytes (utf8 preimage))).

(** A scalar as a [Hex] of 32 big-endian bytes. *)
Definition scalarHex (z : Z) : string := "0x" ++ bytesToHex (beBytes 32 (Z.to_N z)).

(** The key and context of the test suite (test/signer.test.ts). *)
Definition MPC_ROOT_PRIVATE_KEY : string :=
  "0x1234567890abcdef1234567890abcdef1234567890abcdef1234567890abcdef".
Definition PREDECESSOR_ID : string := "Issuer::1220abcdef".
Definition PATH : string := "m/44/60/0/0".
Definition CAIP2_ID : string := "eip155:11155111".

(** A root key whose child for the context above is the zero scalar:
    the curve order minus epsilon. *)
Definition ZERO_CHILD_ROOT : string :=
  "0xb9f293f86c1dbfb983dc0ea5e1051dc12b31db4e2d0581a9c12da9fdd03760ef".

(** The all-zero private key. *)
Definition ZERO_KEY : string := "0x" ++ replicate 64 "0".

(** The coordinates [x ‖ y] of the root public key of the test suite
    (test/address-derivation.test.ts), without the [04] prefix. *)
Definition MPC_ROOT_PUBLIC_KEY_XY : string :=
  "bb50e2d89a4ed70663d080659fe0ad4b9bc3e06c17a227433966cb59ceee020decddbf6e00192011648d13b1c00af770c0c1bb609d4d3a5c98a43772e0e18ef4".

(** ** A scripted environment for the examples

    The ledger allocates a party in the namespace [1220abcdef], accepts
    every submission and answers every current-state query with one
    [PendingEvmDeposit]; the EVM node accepts every transaction and
    reports success.  The serialisation and signing primitives are test
    doubles: their results have the right shape (65 and 64 bytes) but are
    not RLP nor signatures. *)

Definition pendingDeposit : CreatedEvent := {|
  contractId := "00pending";
  templateId := Some "Erc20Vault:PendingEvmDeposit";
  createArgument := {|
    arg_requestId := Some "4ab52d8be7e3d2b7608fd64947f3e51b2cccea2f29d1f72fa0eea740577dfe1a";
    arg_requester := Some PREDECESSOR_ID;
    arg_path := Some PATH;
    arg_evmParams := Some sampleEvmParams;
    arg_r := None; arg_s := None; arg_v := None |}
|}.

(** An [EvmTxOutcomeSignature] event for the request of
    [pendingDeposit]. *)
Definition outcomeEvent : CreatedEvent := {|
  contractId := "00outcome";
  templateId := Some "Erc20Vault:EvmTxOutcomeSignature";
  createArgument := {|
    arg_requestId := Some "4ab52d8be7e3d2b7608fd64947f3e51b2cccea2f29d1f72fa0eea740577dfe1a";
    arg_requester := None; arg_path := None; arg_evmParams := None;
    arg_r := None; arg_s := None; arg_v := None |}
|}.

(** An [EcdsaSignature] event for a request with no pending deposit. *)
Definition orphanSignatureEvent : CreatedEvent := {|
  contractId := "00orphan";
  templateId := Some "Erc20Vault:EcdsaSignature";
  createArgument := {|
    arg_requestId := Some "00000000000000000000000000000000000000000000000000000000deadbeef";
    arg_requester := None; arg_path := None; arg_evmParams := None;
    arg_r := Some "11"; arg_s := Some "22"; arg_v := Some 0%Z |}
|}.

Definition scriptedEnv : Env := {|
  randomUUID := fun k => "uuid-" ++ decimal (Z.of_nat k);
  postParties := fun _ hint => Ok (hint ++ "::1220abcdef");
  getParties := fun _ => Some [];
  postSubmitAndWait := fun _ body => Ok {| updateId := commandId body; events := [] |};
  postActiveContracts := fun _ _ _ => Ok [pendingDeposit];
  ethSendRawTransaction := fun _ _ raw => Ok "0xaa";
  ethWaitForTransactionReceipt := fun _ _ _ => Ok ReceiptSuccess;
  serializeUnsignedTx := fun p => Some ("0x02" ++ packParams p);
  reconstructSignedTx := fun p r s _ => Some ("0x02" ++ packParams p ++ slice 2 r ++ slice 2 s);
  secp256k1_sign_recovered := fun msg key => Some (x00 :: msg ++ key)%list;
  secp256k1_sign_compact := fun msg key => Some (msg ++ key)%list;
  DER_hexFromSig := fun r s => "30" ++ toString16 r ++ toString16 s
|}.

Definition emptyWorld : World := {| history := []; uuidCalls := 0 |}.

(** The values [crypto.randomUUID()] returns for [n] draws made from
    the world [w] on. *)
Definition draws (env : Env) (w : World) (n : nat) : list string :=
  map (randomUUID env) (seq (uuidCalls w) n).

(** The submission [submitAndWait] posts in the world [w]. *)
Definition submissionAt (env : Env) (w : World) (userId_ : string) (actAs_ : list string)
    (commands_ : list Command) : Submission :=
  {| commands := commands_; commandId := randomUUID env (uuidCalls w);
     userId := userId_; actAs := actAs_; readAs := actAs_ |}.

(** The choice a submission exercises, when it is a single exercise. *)
Definition choiceOf (s : Submission) : option string :=
  match commands s with
  | [ExerciseCommand _ _ choice _] => Some choice
  | _ => None
  end.

(** An [EcdsaSignature] event for the request of [pendingDeposit]. *)
Definition signatureEvent : CreatedEvent := {|
  contractId := "00signature";
  templateId := Some "Erc20Vault:EcdsaSignature";
  createArgument := {|
    arg_requestId := Some "4ab52d8be7e3d2b7608fd64947f3e51b2cccea2f29d1f72fa0eea740577dfe1a";
    arg_requester := None; arg_path := None; arg_evmParams := None;
    arg_r := Some "11"; arg_s := Some "22"; arg_v := Some 0%Z |}
|}.

(** The hints of the parties allocated so far, each once. *)
Definition allocatedHints (h : list Request) : list string :=
  nodup string_dec
    (flat_map (fun r => match r with PostParties hint => [hint] | _ => [] end) h).

(** A participant that keeps its parties: a hint allocated before is
    refused, and the listing shows every party allocated. *)
Definition partyLedgerEnv : Env := {|
  randomUUID := randomUUID scriptedEnv;
  postParties := fun h hint =>
    if existsb (String.eqb hint) (allocatedHints h)
    then Throw "{code: INVALID_ARGUMENT, cause: Party already exists}"
    else Ok (hint ++ "::1220abcdef");
  getParties := fun h =>
    Some (map (fun hint => {| party := Some (hint ++ "::1220abcdef") |}) (allocatedHints h));
  postSubmitAndWait := postSubmitAndWait scriptedEnv;
  postActiveContracts := postActiveContracts scriptedEnv;
  ethSendRawTransaction := ethSendRawTransaction scriptedEnv;
  ethWaitForTransactionReceipt := ethWaitForTransactionReceipt scriptedEnv;
  serializeUnsignedTx := serializeUnsignedTx scriptedEnv;
  reconstructSignedTx := reconstructSignedTx scriptedEnv;
  secp256k1_sign_recovered := secp256k1_sign_recovered scriptedEnv;
  secp256k1_sign_compact := secp256k1_sign_compact scriptedEnv;
  DER_hexFromSig := DER_hexFromSig scriptedEnv
|}.

(** A participant that also lists a party of the same hint from another
    namespace, [1220aaaa], ahead of its own parties, which it allocates
    in the namespace [1220bbbb]. *)
Definition twoNamespaceEnv : Env := {|
  randomUUID := randomUUID scriptedEnv;
  postParties := fun h hint =>
    if existsb (String.eqb hint) (allocatedHints h)
    then Throw "{code: INVALID_ARGUMENT, cause: Party already exists}"
    else Ok (hint ++ "::1220bbbb");
  getParties := fun h =>
    Some ({| party := Some "Issuer::1220aaaa" |}
          :: map (fun hint => {| party := Some (hint ++ "::1220bbbb") |}) (allocatedHints h));
  postSubmitAndWait := postSubmitAndWait scriptedEnv;
  postActiveContracts := postActiveContracts scriptedEnv;
  ethSendRawTransaction := ethSendRawTransaction scriptedEnv;
  ethWaitForTransactionReceipt := ethWaitForTransactionReceipt scriptedEnv;
  serializeUnsignedTx := serializeUnsignedTx scriptedEnv;
  reconstructSignedTx := reconstructSignedTx scriptedEnv;
  secp256k1_sign_recovered := secp256k1_sign_recovered scriptedEnv;
  secp256k1_sign_compact := secp256k1_sign_compact scriptedEnv;
  DER_hexFromSig := DER_hexFromSig scriptedEnv
|}.

(** The first listed party whose identifier starts with [hint::]. *)
Definition firstWithPrefix (hint : string) (details : list PartyDetails) : option string :=
  match find (fun p => match party p with
                       | Some id => startsWith (hint ++ "::") id
                       | None => false
                       end) details with
  | Some p => party p
  | None => None
  end.

(** The query the relayer's handlers make. *)
Definition pendingQuery (issuerParty : string) : Request :=
  PostActiveContracts [issuerParty] "Erc20Vault:PendingEvmDeposit".

(** The world after one more request. *)
Definition after (w : World) (r : Request) : World :=
  {| history := (history w ++ [r])%list; uuidCalls := uuidCalls w |}.

(** ** Vocabulary for the ledger stream *)









(** Options of the examples: the defaults, ten attempts and ten
    seconds, a handler that returns and no [onError]. *)
Definition defaultOptions : LedgerStreamOptions := {|
  parties := ["Issuer::1220abcdef"];
  beginExclusive := 42;
  onUpdate := fun _ => Returns;
  onError := None;
  maxReconnectDelayMs := None;
  maxReconnectAttempts := None;
  pollingIdleTimeoutMs := None;
  pollingErrorBackoffMs := None
|}.


(** The cursor after a list of updates, from [off]: the offset of the
    last transaction or checkpoint that carries one. *)
Fixpoint cursorAfter (off : Z) (items : list Update) : Z :=
  match items with
  | [] => off
  | Transaction (Some o) _ :: rest => cursorAfter o rest
  | OffsetCheckpoint (Some o) :: rest => cursorAfter o rest
  | _ :: rest => cursorAfter off rest
  end.








(** ** Further vocabulary for mpc/crypto.ts *)


(** The intent [p] with another call: function signature and
    arguments. *)
Definition withCall (p : EvmTransactionParams) (fnSig : string) (args_ : list string)
    : EvmTransactionParams :=
  {| to := to p; functionSignature := fnSig; args := args_; value := value p;
     nonce := nonce p; gasLimit := gasLimit p; maxFeePerGas := maxFeePerGas p;
     maxPriorityFee := maxPriorityFee p; chainId := chainId p |}.


(** ** Further vocabulary for mpc-service/signer.ts and evm/tx-builder.ts *)

(** The root key of the test suite with upper-case digits and with a
    leading zero byte: another spelling of the same integer. *)
Definition MPC_ROOT_PRIVATE_KEY_UPPER : string :=
  "0x001234567890ABCDEF1234567890ABCDEF1234567890ABCDEF1234567890ABCDEF".

(** [pad32] of [buildEvmParams]:
    [BigInt(v).toString(16).padStart(64, "0")]. *)
Definition pad32 (v : Z) : string := padStart 64 "0" (toString16 v).

(** ** Further vocabulary for the handlers *)

(** The submission of one exercise on the vault orchestrator. *)
Definition exerciseSubmission (env : Env) (draw : nat) (userId_ : string)
    (actAs_ : list string) (orchCid choice : string) (argument : list (string * JValue))
    : Submission :=
  {| commands := [ExerciseCommand "Erc20Vault:VaultOrchestrator" orchCid choice argument];
     commandId := randomUUID env draw; userId := userId_; actAs := actAs_;
     readAs := actAs_ |}.

(** A pending deposit whose call has a single argument. *)
Definition pendingWithOneArgument : CreatedEvent := {|
  contractId := "00short";
  templateId := Some "Erc20Vault:PendingEvmDeposit";
  createArgument := {|
    arg_requestId := arg_requestId (createArgument pendingDeposit);
    arg_requester := Some PREDECESSOR_ID;
    arg_path := Some PATH;
    arg_evmParams :=
      Some (withCall sampleEvmParams "approve(address)"
              ["000000000000000000000000d8da6bf26964af9d7eed9e03e53415d37aa96045"]);
    arg_r := None; arg_s := None; arg_v := None |}
|}.

(** The scripted environment with another answer to the current-state
    query and another answer of the EVM node about receipts. *)
Definition scriptedWith (contracts : list CreatedEvent) (receipt : Result ReceiptStatus)
    : Env := {|
  randomUUID := randomUUID scriptedEnv;
  postParties := postParties scriptedEnv;
  getParties := getParties scriptedEnv;
  postSubmitAndWait := postSubmitAndWait scriptedEnv;
  postActiveContracts := fun _ _ _ => Ok contracts;
  ethSendRawTransaction := ethSendRawTransaction scriptedEnv;
  ethWaitForTransactionReceipt := fun _ _ _ => receipt;
  serializeUnsignedTx := serializeUnsignedTx scriptedEnv;
  reconstructSignedTx := reconstructSignedTx scriptedEnv;
  secp256k1_sign_recovered := secp256k1_sign_recovered scriptedEnv;
  secp256k1_sign_compact := secp256k1_sign_compact scriptedEnv;
  DER_hexFromSig := DER_hexFromSig scriptedEnv
|}.

(* ================================================================== *)
(** * Part II: properties *)
(* ================================================================== *)

Example keccak_empty :
  keccak256 EmptyString = Some "0xc5d2460186f7233c927e7db2dcc703c0e500b653ca82273b7bfad8045d85a470".
Proof. vm_compute. reflexivity. Qed.

Example keccak_abc :
  keccak256 "616263" = Some "0x4e03657aea45a94fc7d47ba826c8d667c0d1e6e33a64a036ec44f58fa12d6c45".
Proof. vm_compute. reflexivity. Qed.

Example keccak_135 :
  keccak256 (bytesToHex (repeat x61 135))
  = Some "0x34367dc248bbd832f4e3e69dfaac2f92638bd0bbd18f2912ba4ef454919cf446".
Proof. vm_compute. reflexivity. Qed.

Example keccak_136 :
  keccak256 (bytesToHex (repeat x61 136))
  = Some "0xa6c4d403279fe3e0af03729caada8374b5ca54d8065329a3ebcaeb4b60aa386e".
Proof. vm_compute. reflexivity. Qed.

(** A string with a character that is not a hexadecimal digit is hashed
    as text, prefix included. *)
Example keccak_text :
  keccak256 "zz" = Some "0x22f0db6c04d10db4e23c81595b5fcd404665abd6a272e33aa29e9bf350f20018"
  /\ keccak256 "zz" = Some (keccak256OfBytes (utf8 "0xzz")).
Proof. vm_compute. split; reflexivity. Qed.

(** [BigInt] on strings: the literals it reads and those it rejects. *)
Example BigInt_literals :
  BigInt EmptyString = Some 0%Z /\ BigInt "12345" = Some 12345%Z
  /\ BigInt "-5" = Some (-5)%Z /\ BigInt "+7" = Some 7%Z /\ BigInt "0x12 " = Some 18%Z
  /\ BigInt " 0X1f" = Some 31%Z /\ BigInt "0b101" = Some 5%Z /\ BigInt "0o17" = Some 15%Z
  /\ BigInt "00012" = Some 12%Z /\ BigInt "-0" = Some 0%Z
  /\ BigInt (String (Ascii.ascii_of_nat 194) (String (Ascii.ascii_of_nat 160) "7")) = Some 7%Z
  /\ BigInt "0x" = None /\ BigInt "-0x5" = None /\ BigInt "1e3" = None
  /\ BigInt "- 5" = None /\ BigInt "1 2" = None /\ BigInt "0xundefined" = None.
Proof. vm_compute. repeat split. Qed.

Example keccak_300 :
  keccak256 (bytesToHex (repeat x78 300))
  = Some "0x956875d0d3af4718863b89e475911881cebd1cd08cfe3c2fcd0890d29def1e37".
Proof. vm_compute. reflexivity. Qed.



(** ** Hexadecimal strings and bytes *)

Lemma charCodeToBase16_hexDigit (n : N) :
  (n < 16)%N -> charCodeToBase16 (hexDigit n) = Some n.
Proof.
  intros H. rewrite <- (N2Nat.id n).
  assert (Hk : (N.to_nat n < 16)%nat) by lia.
  set (k := N.to_nat n) in *. clearbody k.
  do 16 (destruct k as [ | k]; [reflexivity | ]). lia.
Qed.

Lemma to_N_lt_256 (b : byte) : (Byte.to_N b < 256)%N.
Proof. pose proof (Byte.to_N_bounded b); lia. Qed.

Lemma byteOfN_to_N (b : byte) : byteOfN (Byte.to_N b) = b.
Proof. unfold byteOfN. rewrite Byte.of_to_N. reflexivity. Qed.

Lemma to_N_byteOfN (n : N) : (n < 256)%N -> Byte.to_N (byteOfN n) = n.
Proof.
  intros H. unfold byteOfN.
  destruct (Byte.of_N n) as [b | ] eqn:E.
  - apply Byte.to_of_N in E. exact E.
  - apply Byte.of_N_None_iff in E. lia.
Qed.

Lemma string_app_assoc (a b c : string) : (a ++ b) ++ c = a ++ (b ++ c).
Proof. induction a as [ | x a IH]; simpl; [reflexivity | now rewrite IH]. Qed.

Lemma string_app_nil_r (a : string) : a ++ EmptyString = a.
Proof. induction a as [ | x a IH]; simpl; [reflexivity | now rewrite IH]. Qed.

Lemma string_length_app (a b : string) :
  String.length (a ++ b) = (String.length a + String.length b)%nat.
Proof. induction a as [ | x a IH]; simpl; [reflexivity | now rewrite IH]. Qed.


Lemma replicate_add n m c : replicate (n + m) c = replicate n c ++ replicate m c.
Proof. induction n; simpl; congruence. Qed.

Lemma bytesToHex_app (a b : list byte) :
  bytesToHex (a ++ b)%list = bytesToHex a ++ bytesToHex b.
Proof. induction a as [ | x a IH]; simpl; [reflexivity | now rewrite IH]. Qed.

Lemma bytesToHex_length (bs : list byte) :
  String.length (bytesToHex bs) = (2 * List.length bs)%nat.
Proof. induction bs as [ | b bs IH]; simpl; [reflexivity | rewrite IH; lia]. Qed.

Lemma bytesToHex_zeros (j : nat) : bytesToHex (repeat x00 j) = replicate (2 * j) "0".
Proof.
  induction j as [ | j IH]; [reflexivity | ].
  replace (2 * S j)%nat with (S (S (2 * j))) by lia.
  simpl repeat. simpl bytesToHex. rewrite IH. reflexivity.
Qed.

Lemma decode_byte (b : byte) :
  charCodeToBase16 (hexDigit (Byte.to_N b / 16)) = Some (Byte.to_N b / 16)%N
  /\ charCodeToBase16 (hexDigit (Byte.to_N b mod 16)) = Some (Byte.to_N b mod 16)%N
  /\ byteOfN (Byte.to_N b / 16 * 16 + Byte.to_N b mod 16) = b.
Proof.
  pose proof (to_N_lt_256 b) as Hb.
  split; [ | split].
  - apply charCodeToBase16_hexDigit. apply N.Div0.div_lt_upper_bound. lia.
  - apply charCodeToBase16_hexDigit. apply N.mod_lt. lia.
  - rewrite N.mul_comm, <- N.div_mod by lia. apply byteOfN_to_N.
Qed.

(** Decoding undoes encoding, whatever follows. *)
Lemma decodePairs_bytesToHex_app (bs : list byte) (s : string) :
  decodePairs (bytesToHex bs ++ s) = option_map (app bs) (decodePairs s).
Proof.
  induction bs as [ | b bs IH].
  - simpl. destruct (decodePairs s); reflexivity.
  - destruct (decode_byte b) as (H1 & H2 & H3).
    cbn [bytesToHex append decodePairs]. rewrite H1, H2, IH, H3.
    destruct (decodePairs s); reflexivity.
Qed.

Lemma decodePairs_bytesToHex (bs : list byte) : decodePairs (bytesToHex bs) = Some bs.
Proof.
  rewrite <- (string_app_nil_r (bytesToHex bs)), decodePairs_bytesToHex_app.
  simpl. now rewrite app_nil_r.
Qed.

Lemma decodePairs_length (bs : list byte) :
  forall s, decodePairs s = Some bs -> String.length s = (2 * List.length bs)%nat.
Proof.
  induction bs as [ | b bs IH]; intros s H.
  - destruct s as [ | c1 [ | c2 r]]; simpl in H; try discriminate; [reflexivity | ].
    destruct (charCodeToBase16 c1), (charCodeToBase16 c2), (decodePairs r); discriminate.
  - destruct s as [ | c1 [ | c2 r]]; simpl in H; try discriminate.
    destruct (charCodeToBase16 c1), (charCodeToBase16 c2), (decodePairs r) eqn:E;
      try discriminate.
    injection H as _ ->. simpl. rewrite (IH r E). lia.
Qed.

Lemma decodePairs_app (a' : list byte) :
  forall a b, decodePairs a = Some a' ->
              decodePairs (a ++ b) = option_map (app a') (decodePairs b).
Proof.
  induction a' as [ | x a' IH]; intros a b H.
  - apply decodePairs_length in H. destruct a; [ | discriminate].
    simpl. destruct (decodePairs b); reflexivity.
  - destruct a as [ | c1 [ | c2 r]]; simpl in H; try discriminate.
    destruct (charCodeToBase16 c1) eqn:E1, (charCodeToBase16 c2) eqn:E2,
             (decodePairs r) eqn:E; try discriminate.
    injection H as <- ->.
    cbn [append decodePairs]. rewrite E1, E2, (IH r b E).
    destruct (decodePairs b); reflexivity.
Qed.

Lemma decodes_app a b x y : decodes a x -> decodes b y -> decodes (a ++ b) (x ++ y)%list.
Proof. unfold decodes. intros Ha Hb. rewrite (decodePairs_app x a b Ha), Hb. reflexivity. Qed.

Lemma decodes_bytesToHex bs : decodes (bytesToHex bs) bs.
Proof. apply decodePairs_bytesToHex. Qed.

Lemma decodes_nil : decodes EmptyString [].
Proof. reflexivity. Qed.

Lemma even_double_not_odd n : Nat.odd (2 * n) = false.
Proof.
  rewrite <- Nat.negb_even, Nat.even_mul. reflexivity.
Qed.

Lemma hexToBytes_decodes s bs : decodes s bs -> hexToBytes s = Some bs.
Proof.
  intros H. unfold hexToBytes. rewrite (decodePairs_length bs s H), even_double_not_odd.
  exact H.
Qed.

(** A string of hexadecimal digits decodes ([hexToBytes] never throws on
    it). *)
Lemma decodePairs_allHex_even :
  forall n s, String.length s = (2 * n)%nat -> allHex s = true ->
              exists bs, decodePairs s = Some bs.
Proof.
  induction n as [ | n IH]; intros s Hl Hh.
  - destruct s; [exists []; reflexivity | discriminate].
  - destruct s as [ | c1 [ | c2 r]]; simpl in Hl; try lia.
    simpl in Hh.
    destruct (charCodeToBase16 c1) eqn:E1; [ | discriminate].
    destruct (charCodeToBase16 c2) eqn:E2; [ | discriminate].
    destruct (IH r ltac:(lia) Hh) as [bs Hbs].
    eexists. simpl. rewrite E1, E2, Hbs. reflexivity.
Qed.

Lemma hexToBytes_allHex s : allHex s = true -> exists bs, hexToBytes s = Some bs.
Proof.
  intros Hh. unfold hexToBytes.
  destruct (Nat.odd (String.length s)) eqn:Ho.
  - apply Nat.odd_spec in Ho. destruct Ho as [n Hn].
    apply (decodePairs_allHex_even (S n)); [simpl; lia | exact Hh].
  - assert (He : Nat.even (String.length s) = true)
      by (rewrite <- Nat.negb_odd, Ho; reflexivity).
    apply Nat.even_spec in He. destruct He as [n Hn].
    apply (decodePairs_allHex_even n); assumption.
Qed.

Lemma hexToBytes_length s bs :
  hexToBytes s = Some bs -> (2 * List.length bs = String.length s + Nat.b2n (Nat.odd (String.length s)))%nat.
Proof.
  unfold hexToBytes. destruct (Nat.odd (String.length s)); intros H;
    apply decodePairs_length in H; simpl in *; lia.
Qed.

(** [padStart] on hex digits is left padding on bytes. *)
Lemma decodes_padStart (k : nat) (s : string) (bs : list byte) :
  hexToBytes s = Some bs -> (String.length s <= 2 * k)%nat ->
  decodes (padStart (2 * k) "0" s) (leftPad k bs).
Proof.
  intros H Hl. pose proof (hexToBytes_length s bs H) as Hlen.
  unfold padStart, leftPad, decodes. unfold hexToBytes in H.
  destruct (Nat.odd (String.length s)) eqn:Ho; simpl in Hlen.
  - replace (2 * k - String.length s)%nat
      with (2 * (k - List.length bs) + 1)%nat by lia.
    rewrite replicate_add, string_app_assoc, <- bytesToHex_zeros.
    rewrite decodePairs_bytesToHex_app. simpl append. rewrite H. reflexivity.
  - replace (2 * k - String.length s)%nat with (2 * (k - List.length bs))%nat by lia.
    rewrite <- bytesToHex_zeros, decodePairs_bytesToHex_app, H. reflexivity.
Qed.

Lemma leftPad_length k bs : (List.length bs <= k)%nat -> List.length (leftPad k bs) = k.
Proof. intros H. unfold leftPad. rewrite length_app, repeat_length. lia. Qed.

(** ** [toString(16)] and fixed-width big-endian bytes *)

Lemma hexFixed_zero d : hexFixed d 0 = replicate d "0".
Proof.
  induction d as [ | d IH]; [reflexivity | ].
  cbn [hexFixed]. change (0 / 16)%N with 0%N. rewrite IH.
  replace (S d) with (d + 1)%nat by lia.
  rewrite replicate_add. reflexivity.
Qed.

Lemma hexFixed_length d n : String.length (hexFixed d n) = d.
Proof.
  revert n. induction d as [ | d IH]; intros n; [reflexivity | ].
  simpl. rewrite string_length_app, IH. simpl. lia.
Qed.

Lemma toHexDigits_hexFixed :
  forall d fuel n acc,
    (1 <= d)%nat -> (n < 16 ^ N.of_nat d)%N ->
    (1 <= fuel)%nat -> (n < 16 ^ N.of_nat fuel)%N ->
    exists pad,
      hexFixed d n ++ acc = replicate pad "0" ++ toHexDigits fuel n acc
      /\ (pad + String.length (toHexDigits fuel n acc) = d + String.length acc)%nat.
Proof.
  induction d as [ | d IH]; intros fuel n acc Hd Hn Hf Hnf; [lia | ].
  destruct fuel as [ | f]; [lia | ].
  cbn [toHexDigits hexFixed].
  destruct (n <? 16)%N eqn:Hlt.
  - apply N.ltb_lt in Hlt. exists d.
    rewrite N.div_small, N.mod_small, hexFixed_zero by exact Hlt.
    rewrite string_app_assoc. split; [reflexivity | ].
    simpl. lia.
  - apply N.ltb_ge in Hlt.
    assert (Hq : (1 <= n / 16)%N).
    { apply N.div_le_lower_bound; lia. }
    assert (Hd1 : (1 <= d)%nat).
    { destruct d; [ | lia]. simpl in Hn. lia. }
    assert (Hf1 : (1 <= f)%nat).
    { destruct f; [ | lia]. simpl in Hnf. lia. }
    assert (Hqd : (n / 16 < 16 ^ N.of_nat d)%N).
    { apply N.Div0.div_lt_upper_bound.
      rewrite Nat2N.inj_succ, N.pow_succ_r' in Hn. exact Hn. }
    assert (Hqf : (n / 16 < 16 ^ N.of_nat f)%N).
    { apply N.Div0.div_lt_upper_bound.
      rewrite Nat2N.inj_succ, N.pow_succ_r' in Hnf. exact Hnf. }
    destruct (IH f (n / 16)%N (String (hexDigit (n mod 16)) acc) Hd1 Hqd Hf1 Hqf)
      as (pad & E & L).
    exists pad. rewrite string_app_assoc. simpl append at 2.
    split; [exact E | ]. simpl in L. lia.
Qed.

Lemma hexOfN_fuel (n : N) : (n < 16 ^ N.of_nat (S (N.to_nat (N.log2 n))))%N.
Proof.
  rewrite Nat2N.inj_succ, N2Nat.id.
  destruct n as [ | p]; [reflexivity | ].
  apply N.lt_le_trans with (2 ^ N.succ (N.log2 (N.pos p)))%N.
  - apply N.log2_spec. reflexivity.
  - apply N.pow_le_mono_l. lia.
Qed.

(** [n.toString(16).padStart(d, "0")] is [n] on exactly [d] digits. *)
Lemma padStart_hexOfN (d : nat) (n : N) :
  (1 <= d)%nat -> (n < 16 ^ N.of_nat d)%N -> padStart d "0" (hexOfN n) = hexFixed d n.
Proof.
  intros Hd Hn. unfold padStart, hexOfN.
  destruct (toHexDigits_hexFixed d (S (N.to_nat (N.log2 n))) n EmptyString Hd Hn
              ltac:(lia) (hexOfN_fuel n)) as (pad & E & L).
  rewrite string_app_nil_r in E. rewrite E.
  change (String.length EmptyString) with 0%nat in L.
  replace (d - _)%nat with pad by lia. reflexivity.
Qed.

Lemma beBytes_length k n : List.length (beBytes k n) = k.
Proof.
  revert n. induction k as [ | k IH]; intros n; [reflexivity | ].
  simpl. rewrite length_app, IH. simpl. lia.
Qed.

Lemma hexFixed_beBytes (k : nat) : forall n, hexFixed (2 * k) n = bytesToHex (beBytes k n).
Proof.
  induction k as [ | k IH]; intros n; [reflexivity | ].
  replace (2 * S k)%nat with (S (S (2 * k))) by lia.
  cbn [hexFixed beBytes]. rewrite bytesToHex_app, N.Div0.div_div. change (16 * 16)%N with 256%N.
  rewrite IH, string_app_assoc. f_equal.
  cbn [bytesToHex append].
  rewrite to_N_byteOfN by (apply N.mod_lt; lia).
  replace (n mod 256 / 16)%N with ((n / 16) mod 16)%N.
  - replace ((n mod 256) mod 16)%N with (n mod 16)%N; [reflexivity | ].
    change 256%N with (16 * 16)%N. rewrite N.Div0.mod_mul_r.
    rewrite (N.mul_comm 16 ((n / 16) mod 16)), N.Div0.mod_add, N.Div0.mod_mod.
    reflexivity.
  - change 256%N with (16 * 16)%N. rewrite N.Div0.mod_mul_r.
    rewrite (N.mul_comm 16 ((n / 16) mod 16)), N.div_add by lia.
    rewrite (N.div_small (n mod 16) 16) by (apply N.mod_lt; lia). reflexivity.
Qed.

(** A non-negative integer below [256^k], printed in hexadecimal and
    padded to [2k] digits, is its big-endian encoding on [k] bytes. *)
Lemma padStart_toString16 (k : nat) (z : Z) :
  (1 <= k)%nat -> (0 <= z < 256 ^ Z.of_nat k)%Z ->
  padStart (2 * k) "0" (toString16 z) = bytesToHex (beBytes k (Z.to_N z)).
Proof.
  intros Hk Hz.
  assert (E : toString16 z = hexOfN (Z.to_N z)).
  { destruct z as [ | p | p]; [reflexivity | reflexivity | lia]. }
  rewrite E, padStart_hexOfN, hexFixed_beBytes; [reflexivity | lia | ].
  replace (N.of_nat (2 * k)) with (2 * N.of_nat k)%N by lia.
  rewrite N.pow_mul_r. change (16 ^ 2)%N with 256%N.
  apply N2Z.inj_lt. rewrite Z2N.id, N2Z.inj_pow by lia.
  rewrite nat_N_Z. simpl Z.of_N. lia.
Qed.

Lemma parseHexAcc_bytesToHex (bs : list byte) :
  forall a, parseHexAcc (bytesToHex bs) a
            = Some (fold_left (fun a b => (a * 256 + Byte.to_N b)%N) bs a).
Proof.
  induction bs as [ | b bs IH]; intros a; [reflexivity | ].
  destruct (decode_byte b) as (H1 & H2 & _).
  cbn [bytesToHex parseHexAcc fold_left]. rewrite H1, H2, IH. do 2 f_equal.
  pose proof (N.div_mod (Byte.to_N b) 16 ltac:(lia)). lia.
Qed.

(** *** White space and [BigInt] *)

Lemma skipWhiteSpaceChar_visible (c : ascii) (r : string) :
  visible c = true -> skipWhiteSpaceChar (String c r) = None.
Proof.
  unfold visible. intros H. apply andb_prop in H. destruct H as [H1 H2].
  apply N.leb_le in H1. apply N.leb_le in H2.
  unfold skipWhiteSpaceChar, isWhiteSpace3.
  set (a := N_of_ascii c) in *.
  assert (E1 : (a <=? 13)%N = false) by (apply N.leb_gt; lia).
  assert (E2 : (a =? 32)%N = false) by (apply N.eqb_neq; lia).
  assert (E3 : (a =? 0xC2)%N = false) by (apply N.eqb_neq; lia).
  assert (E4 : (a =? 0xE1)%N = false) by (apply N.eqb_neq; lia).
  assert (E5 : (a =? 0xE2)%N = false) by (apply N.eqb_neq; lia).
  assert (E6 : (a =? 0xE3)%N = false) by (apply N.eqb_neq; lia).
  assert (E7 : (a =? 0xEF)%N = false) by (apply N.eqb_neq; lia).
  rewrite E1, E2, E3, E4, E5, E6, E7, andb_false_r. cbn [andb orb].
  destruct r as [ | c2 [ | c3 r3]]; reflexivity.
Qed.

Lemma trimStart_visible (c : ascii) (r : string) :
  visible c = true -> trimStart (String c r) = String c r.
Proof.
  intros H. unfold trimStart. cbn [String.length trimStartAux].
  rewrite (skipWhiteSpaceChar_visible c r H). reflexivity.
Qed.

Lemma trimEnd_allVisible (s : string) : allVisible s = true -> trimEnd s = s.
Proof.
  induction s as [ | c r IH]; intros H; [reflexivity | ].
  cbn [allVisible] in H. apply andb_prop in H. destruct H as [Hc Hr].
  cbn [trimEnd]. rewrite (trimStart_visible c r Hc), (IH Hr). reflexivity.
Qed.

(** A text without white space is its own trimmed text. *)
Lemma trim_allVisible (s : string) : allVisible s = true -> trim s = s.
Proof.
  intros H. unfold trim.
  assert (E : trimStart s = s).
  { destruct s as [ | c r]; [reflexivity | ].
    cbn [allVisible] in H. apply andb_prop in H. apply trimStart_visible. exact (proj1 H). }
  rewrite E. apply trimEnd_allVisible. exact H.
Qed.

Lemma charCodeToBase16_visible (c : ascii) (d : N) :
  charCodeToBase16 c = Some d -> visible c = true.
Proof.
  unfold charCodeToBase16, visible. set (n := N_of_ascii c).
  destruct ((48 <=? n) && (n <=? 57))%N eqn:E1;
    [ | destruct ((65 <=? n) && (n <=? 70))%N eqn:E2;
        [ | destruct ((97 <=? n) && (n <=? 102))%N eqn:E3; [ | discriminate ] ] ].
  all: intros _.
  all: match goal with
       | E : (_ && _)%bool = true |- _ =>
           apply andb_prop in E; destruct E as [Ha Hb];
           apply N.leb_le in Ha; apply N.leb_le in Hb
       end.
  all: apply andb_true_intro; split; apply N.leb_le; lia.
Qed.

Lemma allHex_allVisible (s : string) : allHex s = true -> allVisible s = true.
Proof.
  induction s as [ | c r IH]; intros H; [reflexivity | ].
  cbn [allHex] in H. cbn [allVisible].
  destruct (charCodeToBase16 c) as [d | ] eqn:E; [ | discriminate].
  rewrite (charCodeToBase16_visible c d E), (IH H). reflexivity.
Qed.

Lemma allHex_bytesToHex (bs : list byte) : allHex (bytesToHex bs) = true.
Proof.
  induction bs as [ | b bs IH]; [reflexivity | ].
  destruct (decode_byte b) as (H1 & H2 & _). cbn [bytesToHex allHex].
  rewrite H1, H2. exact IH.
Qed.

(** [BigInt] of a [0x] literal made of hexadecimal digits: their
    value. *)
Lemma BigInt_0x (s : string) :
  allHex s = true -> s <> EmptyString ->
  BigInt ("0x" ++ s) = option_map Z.of_N (parseHexAcc s 0).
Proof.
  intros Hh Hne. unfold BigInt.
  rewrite trim_allVisible by (apply (allHex_allVisible s) in Hh; exact Hh).
  destruct s as [ | c r]; [congruence | reflexivity].
Qed.

(** [BigInt] of a digest printed by [keccak256]: its big-endian value. *)
Lemma BigInt_bytesToHex (bs : list byte) :
  bs <> [] -> BigInt ("0x" ++ bytesToHex bs) = Some (Z.of_N (beValue bs)).
Proof.
  intros Hne. rewrite BigInt_0x.
  - rewrite parseHexAcc_bytesToHex. reflexivity.
  - apply allHex_bytesToHex.
  - destruct bs; [congruence | discriminate].
Qed.

(** ** Keccak-256 returns 32 bytes *)

Lemma keccak256Bytes_length (msg : list byte) : List.length (keccak256Bytes msg) = 32%nat.
Proof. unfold keccak256Bytes. rewrite length_map, length_seq. reflexivity. Qed.

Lemma decodePairs_allHex (bs : list byte) :
  forall s, decodePairs s = Some bs -> allHex s = true.
Proof.
  induction bs as [ | b bs IH]; intros s H.
  - apply decodePairs_length in H. destruct s; [reflexivity | discriminate].
  - destruct s as [ | c1 [ | c2 r]]; simpl in H; try discriminate.
    destruct (charCodeToBase16 c1) eqn:E1, (charCodeToBase16 c2) eqn:E2,
             (decodePairs r) eqn:E; try discriminate.
    injection H as _ ->. cbn [allHex]. rewrite E1, E2. apply IH. exact E.
Qed.

Lemma keccak256_decodes (s : string) (bs : list byte) :
  decodes s bs -> keccak256 s = Some ("0x" ++ bytesToHex (keccak256Bytes bs)).
Proof.
  intros H. unfold keccak256, toBytes.
  change (isHex ("0x" ++ s)) with (allHex s).
  change (slice 2 ("0x" ++ s)) with s.
  rewrite (decodePairs_allHex bs s H), (hexToBytes_decodes s bs H). reflexivity.
Qed.

(** ** mpc/crypto.ts: the request identifier *)

Lemma hexField_decodes (k : nat) (h : string) :
  hexField k h = true -> decodes (padStart (2 * k) "0" h) (leftPad k (bytesOf h)).
Proof.
  unfold hexField. intros H. apply andb_prop in H. destruct H as [Hh Hl].
  apply Nat.leb_le in Hl.
  destruct (hexToBytes_allHex h Hh) as [bs Hbs].
  unfold bytesOf. rewrite Hbs. apply decodes_padStart; assumption.
Qed.

Lemma byteString_decodes (h : string) : byteString h = true -> decodes h (bytesOf h).
Proof.
  unfold byteString. intros H. apply andb_prop in H. destruct H as [Hh He].
  destruct (hexToBytes_allHex h Hh) as [bs Hbs].
  unfold bytesOf, decodes. rewrite Hbs.
  unfold hexToBytes in Hbs. rewrite <- Nat.negb_even, He in Hbs. exact Hbs.
Qed.

Lemma join_decodes (xs : list string) :
  forallb byteString xs = true -> decodes (join xs) (List.concat (map bytesOf xs)).
Proof.
  unfold join. induction xs as [ | x xs IH]; intros H; [reflexivity | ].
  simpl in H. apply andb_prop in H. destruct H as [Hx Hxs].
  specialize (IH Hxs).
  assert (E : String.concat EmptyString (x :: xs) = x ++ String.concat EmptyString xs).
  { destruct xs; simpl; [now rewrite string_app_nil_r | reflexivity]. }
  rewrite E. simpl map. simpl List.concat.
  apply decodes_app; [apply byteString_decodes; exact Hx | exact IH].
Qed.

Lemma packParams_decodes (p : EvmTransactionParams) :
  validIntent p = true -> decodes (packParams p) (packedIntent p).
Proof.
  unfold validIntent. intros H.
  do 7 (apply andb_prop in H; let H' := fresh "F" in destruct H as [H H']).
  unfold packParams, packedIntent.
  apply decodes_app; [apply (hexField_decodes 20); assumption | ].
  apply decodes_app; [apply decodes_bytesToHex | ].
  apply decodes_app; [apply join_decodes; assumption | ].
  do 5 (apply decodes_app; [apply (hexField_decodes 32); assumption | ]).
  apply (hexField_decodes 32); assumption.
Qed.

Lemma computeRequestId_preimage sender p caip2Id keyVersion path :
  validIntent p = true -> (0 <= keyVersion < 2 ^ 32)%Z ->
  decodes (textToHex sender ++ packParams p ++ textToHex caip2Id
             ++ uint32ToHex keyVersion ++ textToHex path ++ textToHex "ECDSA"
             ++ textToHex "ethereum")
          (requestIdPreimage sender p caip2Id keyVersion path).
Proof.
  intros Hp Hk. unfold requestIdPreimage, textToHex, uint32ToHex.
  change 8%nat with (2 * 4)%nat.
  rewrite padStart_toString16 by (simpl; lia).
  apply decodes_app; [apply decodes_bytesToHex | ].
  apply decodes_app; [apply packParams_decodes; exact Hp | ].
  do 4 (apply decodes_app; [apply decodes_bytesToHex | ]).
  apply decodes_bytesToHex.
Qed.

(** C1. For every well-formed transaction intent and every 32-bit key
    version, [computeRequestId] returns the Keccak-256 digest of: the
    UTF-8 bytes of [sender]; the packed intent ([to] on 20 bytes, the
    UTF-8 bytes of [functionSignature], the arguments concatenated, then
    [value], [nonce], [gasLimit], [maxFeePerGas], [maxPriorityFee] and
    [chainId] each left-padded to 32 bytes); the UTF-8 bytes of
    [caip2Id]; [keyVersion] as 4 big-endian bytes; the UTF-8 bytes of
    [path], of "ECDSA" and of "ethereum".  The result is a function of
    the inputs and it is a 32-byte value (printed as [0x] and 64
    digits). *)
Theorem computeRequestId_spec (sender : string) (p : EvmTransactionParams)
    (caip2Id : string) (keyVersion : Z) (path : string) :
  validIntent p = true -> (0 <= keyVersion < 2 ^ 32)%Z ->
  let digest := keccak256Bytes (requestIdPreimage sender p caip2Id keyVersion path) in
  computeRequestId sender p caip2Id keyVersion path = Some ("0x" ++ bytesToHex digest)
  /\ List.length digest = 32%nat
  /\ String.length ("0x" ++ bytesToHex digest) = 66%nat.
Proof.
  intros Hp Hk digest. split; [ | split].
  - unfold computeRequestId. apply keccak256_decodes.
    apply computeRequestId_preimage; assumption.
  - apply keccak256Bytes_length.
  - change ("0x" ++ bytesToHex digest) with (String "0" (String "x" (bytesToHex digest))).
    cbn [String.length]. rewrite bytesToHex_length. unfold digest.
    rewrite keccak256Bytes_length. reflexivity.
Qed.

Lemma computeRequestId_spec_witness :
  validIntent sampleEvmParams = true /\ (0 <= 1 < 2 ^ 32)%Z
  /\ computeRequestId "Issuer::1220abcdef" sampleEvmParams "eip155:11155111" 1 "m/44/60/0/0"
     = Some "0x4ab52d8be7e3d2b7608fd64947f3e51b2cccea2f29d1f72fa0eea740577dfe1a".
Proof.
  split; [reflexivity | split; [lia | ]].
  destruct (computeRequestId_spec "Issuer::1220abcdef" sampleEvmParams
              "eip155:11155111" 1 "m/44/60/0/0" eq_refl ltac:(lia)) as (E & _ & _).
  rewrite E. vm_compute. reflexivity.
Defined.

(** ** mpc-service/signer.ts: child key derivation *)

Lemma beValue_snoc (bs : list byte) (b : byte) :
  beValue (bs ++ [b]) = (beValue bs * 256 + Byte.to_N b)%N.
Proof. unfold beValue. rewrite fold_left_app. reflexivity. Qed.

Lemma beValue_beBytes (k : nat) :
  forall n, (n < 256 ^ N.of_nat k)%N -> beValue (beBytes k n) = n.
Proof.
  induction k as [ | k IH]; intros n Hn.
  - simpl in Hn. simpl. unfold beValue. simpl. lia.
  - cbn [beBytes]. rewrite beValue_snoc, IH.
    + rewrite to_N_byteOfN by (apply N.mod_lt; lia).
      pose proof (N.div_mod n 256 ltac:(lia)). lia.
    + apply N.Div0.div_lt_upper_bound.
      rewrite Nat2N.inj_succ, N.pow_succ_r' in Hn. exact Hn.
Qed.

Lemma toBytes_derivationPath (predecessorId path caip2Id : string) :
  toBytes (derivationPathOf predecessorId path caip2Id)
  = Some (utf8 (derivationPathOf predecessorId path caip2Id)).
Proof. reflexivity. Qed.

Lemma CURVE_ORDER_bounds : (0 < CURVE_ORDER < 256 ^ 32)%Z.
Proof. unfold CURVE_ORDER. split; reflexivity. Qed.

(** The two [%] of the source compute the mathematical residue, also
    of a negative sum. *)
Lemma rem_rem_mod (x n : Z) : (0 < n)%Z -> Z.rem (Z.rem x n + n) n = (x mod n)%Z.
Proof.
  intros Hn.
  pose proof (Z.rem_bound_abs x n ltac:(lia)) as Hb.
  assert (Hr : (- n < Z.rem x n < n)%Z) by lia.
  rewrite (Z.rem_mod_nonneg (Z.rem x n + n) n) by lia.
  rewrite (Z.rem_eq x n) by lia.
  replace (x - n * Z.quot x n + n)%Z with (x + (1 - Z.quot x n) * n)%Z by lia.
  apply Z.mod_add. lia.
Qed.

(** What [deriveChildPrivateKey] returns on a root key that [BigInt]
    accepts. *)
Lemma deriveChildPrivateKey_value (root predecessorId path caip2Id : string) (r : Z) :
  BigInt root = Some r ->
  deriveChildPrivateKey root predecessorId path caip2Id
  = Some (scalarHex ((r + epsilonOf (derivationPathOf predecessorId path caip2Id))
                     mod CURVE_ORDER)).
Proof.
  intros Hr. pose proof CURVE_ORDER_bounds as Hn.
  unfold deriveChildPrivateKey.
  change (EPSILON_DERIVATION_PREFIX ++ ":" ++ caip2Id ++ ":" ++ predecessorId ++ ":" ++ path)
    with (derivationPathOf predecessorId path caip2Id).
  rewrite toBytes_derivationPath, Hr. unfold keccak256OfBytes.
  rewrite BigInt_bytesToHex.
  2:{ intros E. apply (f_equal (@List.length byte)) in E.
      rewrite keccak256Bytes_length in E. discriminate. }
  unfold epsilonOf.
  set (eps := Z.of_N (beValue (keccak256Bytes
                                 (utf8 (derivationPathOf predecessorId path caip2Id))))).
  rewrite rem_rem_mod by lia.
  pose proof (Z.mod_pos_bound (r + eps) CURVE_ORDER ltac:(lia)).
  change 64%nat with (2 * 32)%nat. rewrite padStart_toString16; [reflexivity | lia | ].
  change (Z.of_nat 32) with 32%Z. lia.
Qed.

Lemma scalarHex_BigInt (z : Z) : (0 <= z < 256 ^ 32)%Z -> BigInt (scalarHex z) = Some z.
Proof.
  intros Hz. unfold scalarHex. rewrite BigInt_bytesToHex.
  - rewrite beValue_beBytes; [f_equal; lia | ].
    apply N2Z.inj_lt. rewrite Z2N.id, N2Z.inj_pow by lia.
    change (Z.of_N 256 ^ Z.of_N (N.of_nat 32))%Z with (256 ^ 32)%Z. lia.
  - intros E. apply (f_equal (@List.length byte)) in E.
    rewrite beBytes_length in E. discriminate.
Qed.

(** C2, as amended.  For every root key that [BigInt] reads as an
    integer [r] (a [0x] literal as the [Hex] type has it, but also a
    decimal or signed literal, or the empty string) and every derivation
    context, [deriveChildPrivateKey] returns [(r + epsilon) mod n], the
    residue in [0, n), as a [Hex] of 32 big-endian bytes, where [n] is
    the secp256k1 order and [epsilon] is the Keccak-256 digest, read as a
    big-endian integer, of the colon-separated text
    [prefix:chainContext:predecessorId:path].  The result is a function
    of the inputs alone. *)
Theorem deriveChildPrivateKey_spec (root predecessorId path caip2Id : string) (r : Z) :
  BigInt root = Some r ->
  let child := ((r + epsilonOf (derivationPathOf predecessorId path caip2Id))
                mod CURVE_ORDER)%Z in
  deriveChildPrivateKey root predecessorId path caip2Id = Some (scalarHex child)
  /\ BigInt (scalarHex child) = Some child
  /\ String.length (scalarHex child) = 66%nat.
Proof.
  intros Hr child. pose proof CURVE_ORDER_bounds as Hn.
  pose proof (Z.mod_pos_bound
                (r + epsilonOf (derivationPathOf predecessorId path caip2Id))
                CURVE_ORDER ltac:(lia)) as Hc.
  fold child in Hc.
  split; [ | split].
  - apply deriveChildPrivateKey_value; exact Hr.
  - apply scalarHex_BigInt. lia.
  - unfold scalarHex.
    change ("0x" ++ ?s) with (String "0" (String "x" s)).
    cbn [String.length]. rewrite bytesToHex_length, beBytes_length. reflexivity.
Qed.

Lemma deriveChildPrivateKey_spec_witness :
  BigInt MPC_ROOT_PRIVATE_KEY
  = Some 0x1234567890abcdef1234567890abcdef1234567890abcdef1234567890abcdef%Z
  /\ deriveChildPrivateKey MPC_ROOT_PRIVATE_KEY PREDECESSOR_ID PATH CAIP2_ID
     = Some "0x5841c280248e0e358e5847d2afa6b02ca1b1581112eeec8110d90b0790aaae41"
  /\ BigInt "-5" = Some (-5)%Z
  /\ deriveChildPrivateKey "-5" PREDECESSOR_ID PATH CAIP2_ID
     = Some "0x460d6c0793e240467c23f15a1efae23d8f7d019882431e91fea4b48efffee04d".
Proof.
  split; [reflexivity | split; [ | split; [reflexivity | ]]].
  - destruct (deriveChildPrivateKey_spec MPC_ROOT_PRIVATE_KEY PREDECESSOR_ID PATH CAIP2_ID
                _ eq_refl) as (E & _ & _).
    rewrite E. vm_compute. reflexivity.
  - destruct (deriveChildPrivateKey_spec "-5" PREDECESSOR_ID PATH CAIP2_ID _ eq_refl)
      as (E & _ & _).
    rewrite E. vm_compute. reflexivity.
Defined.

(** C2 as stated fails: with epsilon the digest of the plain
    concatenation [prefix ‖ chainContext ‖ predecessorId ‖ path], the
    child key of the test vector is not [(root + epsilon) mod n]. *)
Lemma deriveChildPrivateKey_not_plain_concatenation :
  BigInt MPC_ROOT_PRIVATE_KEY
  = Some 0x1234567890abcdef1234567890abcdef1234567890abcdef1234567890abcdef%Z
  /\ deriveChildPrivateKey MPC_ROOT_PRIVATE_KEY PREDECESSOR_ID PATH CAIP2_ID
     <> Some (scalarHex
                ((0x1234567890abcdef1234567890abcdef1234567890abcdef1234567890abcdef
                  + epsilonOf (plainConcatenation PREDECESSOR_ID PATH CAIP2_ID))
                 mod CURVE_ORDER)).
Proof.
  split; [reflexivity | ].
  intros H. vm_compute in H. discriminate H.
Qed.

Lemma scalarHex_zero : scalarHex 0 = ZERO_KEY.
Proof. reflexivity. Qed.

Lemma deriveChildPrivateKey_None (root predecessorId path caip2Id : string) :
  deriveChildPrivateKey root predecessorId path caip2Id = None <-> BigInt root = None.
Proof.
  split.
  - intros H. destruct (BigInt root) as [r | ] eqn:Hr; [ | reflexivity].
    rewrite (deriveChildPrivateKey_value root predecessorId path caip2Id r Hr) in H.
    discriminate H.
  - intros Hr. unfold deriveChildPrivateKey.
    change (EPSILON_DERIVATION_PREFIX ++ ":" ++ caip2Id ++ ":" ++ predecessorId ++ ":" ++ path)
      with (derivationPathOf predecessorId path caip2Id).
    rewrite toBytes_derivationPath, Hr. reflexivity.
Qed.

(** C8, as amended.  [deriveChildPrivateKey] has no zero check: it
    raises exactly when [BigInt] rejects the root key (a text that is not
    an integer literal), and when the derived scalar
    [(root + epsilon) mod n] is zero it returns the all-zero 32-byte
    key. *)
Theorem deriveChildPrivateKey_zero_child (root predecessorId path caip2Id : string) :
  (deriveChildPrivateKey root predecessorId path caip2Id = None <-> BigInt root = None)
  /\ (forall r : Z,
        BigInt root = Some r ->
        ((r + epsilonOf (derivationPathOf predecessorId path caip2Id)) mod CURVE_ORDER = 0)%Z ->
        deriveChildPrivateKey root predecessorId path caip2Id = Some ZERO_KEY).
Proof.
  split; [apply deriveChildPrivateKey_None | ].
  intros r Hr Hz.
  rewrite (deriveChildPrivateKey_value root predecessorId path caip2Id r Hr), Hz.
  rewrite scalarHex_zero. reflexivity.
Qed.

Lemma deriveChildPrivateKey_zero_child_witness :
  BigInt ZERO_CHILD_ROOT
  = Some 0xb9f293f86c1dbfb983dc0ea5e1051dc12b31db4e2d0581a9c12da9fdd03760ef%Z
  /\ ((0xb9f293f86c1dbfb983dc0ea5e1051dc12b31db4e2d0581a9c12da9fdd03760ef
       + epsilonOf (derivationPathOf PREDECESSOR_ID PATH CAIP2_ID)) mod CURVE_ORDER = 0)%Z
  /\ deriveChildPrivateKey ZERO_CHILD_ROOT PREDECESSOR_ID PATH CAIP2_ID = Some ZERO_KEY
  /\ BigInt "0xzz" = None
  /\ deriveChildPrivateKey "0xzz" PREDECESSOR_ID PATH CAIP2_ID = None.
Proof.
  assert (Hr : BigInt ZERO_CHILD_ROOT
               = Some 0xb9f293f86c1dbfb983dc0ea5e1051dc12b31db4e2d0581a9c12da9fdd03760ef%Z)
    by reflexivity.
  assert (Hz : ((0xb9f293f86c1dbfb983dc0ea5e1051dc12b31db4e2d0581a9c12da9fdd03760ef
                 + epsilonOf (derivationPathOf PREDECESSOR_ID PATH CAIP2_ID))
                mod CURVE_ORDER = 0)%Z)
    by (vm_compute; reflexivity).
  assert (Hn : BigInt "0xzz" = None) by reflexivity.
  split; [exact Hr | split; [exact Hz | split; [ | split; [exact Hn | ]]]].
  - exact (proj2 (deriveChildPrivateKey_zero_child ZERO_CHILD_ROOT PREDECESSOR_ID PATH
                    CAIP2_ID) _ Hr Hz).
  - exact (proj2 (proj1 (deriveChildPrivateKey_zero_child "0xzz" PREDECESSOR_ID PATH
                           CAIP2_ID)) Hn).
Defined.

(** C8 as stated fails: on this root key the derived scalar is zero, and
    the function returns the zero key instead of raising. *)
Lemma deriveChildPrivateKey_returns_zero_key :
  ((0xb9f293f86c1dbfb983dc0ea5e1051dc12b31db4e2d0581a9c12da9fdd03760ef
    + epsilonOf (derivationPathOf PREDECESSOR_ID PATH CAIP2_ID)) mod CURVE_ORDER = 0)%Z
  /\ deriveChildPrivateKey ZERO_CHILD_ROOT PREDECESSOR_ID PATH CAIP2_ID
     = Some "0x0000000000000000000000000000000000000000000000000000000000000000"
  /\ deriveChildPrivateKey ZERO_CHILD_ROOT PREDECESSOR_ID PATH CAIP2_ID <> None.
Proof.
  split; [vm_compute; reflexivity | ].
  assert (E : deriveChildPrivateKey ZERO_CHILD_ROOT PREDECESSOR_ID PATH CAIP2_ID
              = Some "0x0000000000000000000000000000000000000000000000000000000000000000")
    by (vm_compute; reflexivity).
  split; [exact E | rewrite E; discriminate].
Qed.

(** ** mpc/address-derivation.ts *)

Lemma slice_bytesToHex (k : nat) :
  forall d, slice (2 * k) (bytesToHex d) = bytesToHex (skipn k d).
Proof.
  induction k as [ | k IH]; intros d; [reflexivity | ].
  replace (2 * S k)%nat with (S (S (2 * k))) by lia.
  destruct d as [ | b d]; [reflexivity | ].
  cbn [bytesToHex slice skipn]. apply IH.
Qed.

Lemma address_of_digest (d : list byte) :
  List.length d = 32%nat ->
  "0x" ++ slice 26 ("0x" ++ bytesToHex d) = "0x" ++ bytesToHex (lastBytes 20 d).
Proof.
  intros Hd. unfold lastBytes. rewrite Hd.
  change (slice 26 ("0x" ++ bytesToHex d)) with (slice (2 * 12) (bytesToHex d)).
  rewrite slice_bytesToHex. reflexivity.
Qed.

Lemma lastBytes_length (k : nat) (d : list byte) :
  (k <= List.length d)%nat -> List.length (lastBytes k d) = k.
Proof. intros H. unfold lastBytes. rewrite length_skipn. lia. Qed.

Lemma keccak256_text (s : string) :
  allHex s = false ->
  keccak256 s = Some ("0x" ++ bytesToHex (keccak256Bytes (utf8 ("0x" ++ s)))).
Proof.
  intros H. unfold keccak256, toBytes.
  change (isHex ("0x" ++ s)) with (allHex s). rewrite H. reflexivity.
Qed.

Lemma publicKeyToEthAddress_04 (k : string) :
  publicKeyToEthAddress ("04" ++ k)
  = match keccak256 k with
    | Some hash => Some ("0x" ++ slice 26 hash)
    | None => None
    end.
Proof.
  unfold publicKeyToEthAddress, startsWith.
  change ("04" ++ k) with (String "0" (String "4" k)).
  assert (P : String.prefix "04" (String "0" (String "4" k)) = true)
    by (destruct k; reflexivity).
  rewrite P. reflexivity.
Qed.

(** C10. [publicKeyToEthAddress] normalises the uncompressed-point
    prefix.  For every string [k] of hexadecimal digits, the address of
    ["04" ++ k] is [0x] followed by the last 20 bytes (40 hexadecimal
    characters) of the Keccak-256 digest of the bytes of [k], the
    coordinates [x ‖ y]; and whenever [k] does not start with ["04"],
    [publicKeyToEthAddress k] is the same value.  (The second part holds
    for every string; a [k] with a character that is not a hexadecimal
    digit is not rejected: its text, with the [0x] prefix, is hashed.) *)
Theorem publicKeyToEthAddress_spec (k : string) :
  (allHex k = true ->
   exists xy,
     hexToBytes k = Some xy
     /\ publicKeyToEthAddress ("04" ++ k)
        = Some ("0x" ++ bytesToHex (lastBytes 20 (keccak256Bytes xy)))
     /\ List.length (lastBytes 20 (keccak256Bytes xy)) = 20%nat
     /\ String.length ("0x" ++ bytesToHex (lastBytes 20 (keccak256Bytes xy))) = 42%nat)
  /\ (startsWith "04" k = false ->
      publicKeyToEthAddress k = publicKeyToEthAddress ("04" ++ k))
  /\ (allHex k = false ->
      publicKeyToEthAddress ("04" ++ k)
      = Some ("0x" ++ bytesToHex (lastBytes 20 (keccak256Bytes (utf8 ("0x" ++ k)))))).
Proof.
  assert (L : forall xy, List.length (lastBytes 20 (keccak256Bytes xy)) = 20%nat).
  { intros xy. apply lastBytes_length. rewrite keccak256Bytes_length. lia. }
  split; [ | split].
  - intros Hh. destruct (hexToBytes_allHex k Hh) as [xy Hxy].
    exists xy. split; [exact Hxy | ].
    split; [ | split; [apply L | ]].
    + rewrite publicKeyToEthAddress_04. unfold keccak256, toBytes.
      change (isHex ("0x" ++ k)) with (allHex k).
      change (slice 2 ("0x" ++ k)) with k.
      rewrite Hh, Hxy. cbn [option_map]. apply f_equal.
      apply address_of_digest, keccak256Bytes_length.
    + change ("0x" ++ ?s) with (String "0" (String "x" s)).
      cbn [String.length]. rewrite bytesToHex_length, L. reflexivity.
  - intros Hk. rewrite publicKeyToEthAddress_04.
    unfold publicKeyToEthAddress. rewrite Hk. reflexivity.
  - intros Hh. rewrite publicKeyToEthAddress_04, (keccak256_text k Hh).
    apply f_equal. apply address_of_digest, keccak256Bytes_length.
Qed.

Lemma publicKeyToEthAddress_spec_witness :
  allHex MPC_ROOT_PUBLIC_KEY_XY = true
  /\ startsWith "04" MPC_ROOT_PUBLIC_KEY_XY = false
  /\ publicKeyToEthAddress MPC_ROOT_PUBLIC_KEY_XY
     = publicKeyToEthAddress ("04" ++ MPC_ROOT_PUBLIC_KEY_XY)
  /\ publicKeyToEthAddress ("04" ++ MPC_ROOT_PUBLIC_KEY_XY)
     = Some "0x1be31a94361a391bbafb2a4ccd704f57dc04d4bb".
Proof.
  destruct (publicKeyToEthAddress_spec MPC_ROOT_PUBLIC_KEY_XY) as (H & S & _).
  destruct (H eq_refl) as (xy & Hxy & E & _).
  split; [reflexivity | split; [reflexivity | split; [exact (S eq_refl) | ]]].
  rewrite E. vm_compute in Hxy. injection Hxy as <-. vm_compute. reflexivity.
Defined.

(** ** Handlers: the requests they send *)

Lemma skipn_app_length {A} (h l : list A) : skipn (List.length h) (h ++ l)%list = l.
Proof. induction h as [ | x h IH]; [reflexivity | exact IH]. Qed.

(** Symbolic execution of a handler: every oracle answer and every
    fallible pure call is split into its cases, innermost first. *)
Ltac has_inner_match scrut :=
  match scrut with context [match _ with _ => _ end] => idtac end.

Ltac split_case :=
  match goal with
  | |- context [match ?scrut with _ => _ end] =>
      tryif has_inner_match scrut then fail else destruct scrut eqn:?
  end.

Ltac split_cases := repeat split_case.

Ltac run_monad :=
  unfold exerciseChoice, createContract, submitAndWait, getActiveContracts,
    submitRawTransaction, findPartyByHint, crypto_randomUUID, send, fromResult, lift,
    tryCatch, bind, ret, throw;
  cbn [fst snd history uuidCalls].

Ltac read_trace :=
  cbn [fst snd history uuidCalls];
  rewrite <- ?app_assoc, ?skipn_app_length, ?skipn_all;
  cbn [submissionsOf flat_map app List.length map commandId choiceOf commands];
  unfold draws; cbn [seq map];
  rewrite ?Nat.add_0_r, ?Nat.add_1_r.

Lemma submitAndWait_run env u a cmds w :
  submitAndWait env u a cmds w
  = (match postSubmitAndWait env (history w) (submissionAt env w u a cmds) with
     | Ok t => Ok t
     | Throw e => Throw ("submitAndWait failed: " ++ e)
     end,
     {| history := (history w ++ [PostSubmitAndWait (submissionAt env w u a cmds)])%list;
        uuidCalls := S (uuidCalls w) |}).
Proof.
  run_monad. fold (submissionAt env w u a cmds).
  destruct (postSubmitAndWait env (history w) (submissionAt env w u a cmds)); reflexivity.
Qed.

Lemma handlePendingEvmDeposit_trace env orchCid u a root rpc ev w :
  let c := handlePendingEvmDeposit env orchCid u a root rpc ev in
  let subs := submissionsOf (emitted c w) in
  map commandId subs = draws env w (List.length subs)
  /\ uuidCalls (snd (c w)) = (uuidCalls w + List.length subs)%nat
  /\ (List.length subs <= 2)%nat
  /\ (fst (c w) = Ok tt ->
      map choiceOf subs = [Some "SignEvmTx"; Some "ProvideEvmOutcomeSig"]).
Proof.
  intros c subs. subst subs c. unfold handlePendingEvmDeposit, emitted.
  run_monad. split_cases.
  all: read_trace.
  all: repeat split; try lia; try discriminate; reflexivity.
Qed.

Lemma handleEcdsaSignature_trace env issuer rpc ev w :
  let c := handleEcdsaSignature env issuer rpc ev in
  submissionsOf (emitted c w) = [] /\ uuidCalls (snd (c w)) = uuidCalls w.
Proof.
  intros c. subst c. unfold handleEcdsaSignature, emitted.
  run_monad. split_cases.
  all: read_trace.
  all: split; reflexivity.
Qed.

Lemma handleEvmTxOutcomeSignature_trace env orchCid u a issuer ev w :
  let c := handleEvmTxOutcomeSignature env orchCid u a issuer ev in
  let subs := submissionsOf (emitted c w) in
  map commandId subs = draws env w (List.length subs)
  /\ uuidCalls (snd (c w)) = (uuidCalls w + List.length subs)%nat
  /\ (List.length subs <= 1)%nat
  /\ (fst (c w) = Ok tt ->
      forall contracts,
        postActiveContracts env (history w) [issuer] "Erc20Vault:PendingEvmDeposit"
        = Ok contracts ->
        match findPending (arg_requestId (createArgument ev)) contracts with
        | None => subs = []
        | Some _ => map choiceOf subs = [Some "ClaimEvmDeposit"]
        end).
Proof.
  intros c subs. subst subs c. unfold handleEvmTxOutcomeSignature, emitted.
  run_monad. split_cases.
  all: read_trace.
  all: repeat split; try lia; try discriminate; try reflexivity.
  all: intros _ contracts E; injection E as <-.
  all: match goal with H : findPending _ _ = _ |- _ => rewrite H end; reflexivity.
Qed.

(** When the lookup finds no anchor, the relayer's handlers return
    after the query and nothing else has been sent. *)
Lemma handleEcdsaSignature_no_anchor env issuer rpc ev w contracts :
  postActiveContracts env (history w) [issuer] "Erc20Vault:PendingEvmDeposit" = Ok contracts ->
  findPending (arg_requestId (createArgument ev)) contracts = None ->
  handleEcdsaSignature env issuer rpc ev w = (Ok tt, after w (pendingQuery issuer)).
Proof.
  intros Hq Hf. unfold handleEcdsaSignature. run_monad. rewrite Hq.
  cbn [history]. rewrite Hf. reflexivity.
Qed.

Lemma handleEvmTxOutcomeSignature_no_anchor env orchCid u a issuer ev w contracts :
  postActiveContracts env (history w) [issuer] "Erc20Vault:PendingEvmDeposit" = Ok contracts ->
  findPending (arg_requestId (createArgument ev)) contracts = None ->
  handleEvmTxOutcomeSignature env orchCid u a issuer ev w
  = (Ok tt, after w (pendingQuery issuer)).
Proof.
  intros Hq Hf. unfold handleEvmTxOutcomeSignature. run_monad. rewrite Hq.
  cbn [history]. rewrite Hf. reflexivity.
Qed.

(** C3, as amended.  The identifier of a submitted command is the value
    [crypto.randomUUID()] returns when [submitAndWait] builds the request:
    it does not depend on the commands nor on the triggering event.  The
    commands a handler submits carry the consecutive draws of the random
    source, starting at the draw the handler begins with, so a second
    handling of the same event carries the draws that follow. *)
Theorem commandId_is_random_draw (env : Env) (w : World) :
  (forall u a cmds,
      snd (submitAndWait env u a cmds w)
      = {| history := (history w ++ [PostSubmitAndWait (submissionAt env w u a cmds)])%list;
           uuidCalls := S (uuidCalls w) |}
      /\ commandId (submissionAt env w u a cmds) = randomUUID env (uuidCalls w))
  /\ (forall orchCid u a root rpc ev,
        let c := handlePendingEvmDeposit env orchCid u a root rpc ev in
        let subs := submissionsOf (emitted c w) in
        map commandId subs = draws env w (List.length subs)
        /\ uuidCalls (snd (c w)) = (uuidCalls w + List.length subs)%nat)
  /\ (forall orchCid u a issuer ev,
        let c := handleEvmTxOutcomeSignature env orchCid u a issuer ev in
        let subs := submissionsOf (emitted c w) in
        map commandId subs = draws env w (List.length subs)
        /\ uuidCalls (snd (c w)) = (uuidCalls w + List.length subs)%nat)
  /\ (forall issuer rpc ev,
        let c := handleEcdsaSignature env issuer rpc ev in
        submissionsOf (emitted c w) = [] /\ uuidCalls (snd (c w)) = uuidCalls w).
Proof.
  split; [ | split; [ | split]].
  - intros u a cmds. rewrite submitAndWait_run. split; reflexivity.
  - intros orchCid u a root rpc ev c subs.
    destruct (handlePendingEvmDeposit_trace env orchCid u a root rpc ev w) as (H1 & H2 & _).
    split; assumption.
  - intros orchCid u a issuer ev c subs.
    destruct (handleEvmTxOutcomeSignature_trace env orchCid u a issuer ev w) as (H1 & H2 & _).
    split; assumption.
  - intros issuer rpc ev. apply handleEcdsaSignature_trace.
Qed.

(** C3 as stated fails: the relayer handles the same
    [EvmTxOutcomeSignature] event twice, both times the claim is
    submitted, and the two submissions carry different command
    identifiers. *)
Lemma same_event_different_commandId :
  let h := handleEvmTxOutcomeSignature scriptedEnv "00orch" "relayer"
             ["Issuer::1220abcdef"] "Issuer::1220abcdef" outcomeEvent in
  let w1 := snd (h emptyWorld) in
  fst (h emptyWorld) = Ok tt /\ fst (h w1) = Ok tt
  /\ map commandId (submissionsOf (emitted h emptyWorld)) = ["uuid-0"]
  /\ map commandId (submissionsOf (emitted h w1)) = ["uuid-1"]
  /\ map commandId (submissionsOf (emitted h emptyWorld))
     <> map commandId (submissionsOf (emitted h w1)).
Proof.
  vm_compute. repeat split; try reflexivity. discriminate.
Qed.

(** C4, as amended.  The Signer's handler submits at most two commands
    for one anchor event and, when it succeeds, exactly two: [SignEvmTx],
    then [ProvideEvmOutcomeSig].  The Relayer's [EcdsaSignature] handler
    submits no command to the ledger on any path.  The Relayer's
    [EvmTxOutcomeSignature] handler submits at most one command and,
    when it succeeds, exactly one [ClaimEvmDeposit] if the anchor is
    found and none otherwise. *)
Theorem handlers_submission_count (env : Env) (w : World) :
  (forall orchCid u a root rpc ev,
      let c := handlePendingEvmDeposit env orchCid u a root rpc ev in
      let subs := submissionsOf (emitted c w) in
      (List.length subs <= 2)%nat
      /\ (fst (c w) = Ok tt ->
          map choiceOf subs = [Some "SignEvmTx"; Some "ProvideEvmOutcomeSig"]))
  /\ (forall issuer rpc ev,
        submissionsOf (emitted (handleEcdsaSignature env issuer rpc ev) w) = [])
  /\ (forall orchCid u a issuer ev,
        let c := handleEvmTxOutcomeSignature env orchCid u a issuer ev in
        let subs := submissionsOf (emitted c w) in
        (List.length subs <= 1)%nat
        /\ (fst (c w) = Ok tt ->
            forall contracts,
              postActiveContracts env (history w) [issuer] "Erc20Vault:PendingEvmDeposit"
              = Ok contracts ->
              match findPending (arg_requestId (createArgument ev)) contracts with
              | None => subs = []
              | Some _ => map choiceOf subs = [Some "ClaimEvmDeposit"]
              end)).
Proof.
  split; [ | split].
  - intros orchCid u a root rpc ev c subs.
    destruct (handlePendingEvmDeposit_trace env orchCid u a root rpc ev w)
      as (_ & _ & H3 & H4).
    split; assumption.
  - intros issuer rpc ev. apply handleEcdsaSignature_trace.
  - intros orchCid u a issuer ev c subs.
    destruct (handleEvmTxOutcomeSignature_trace env orchCid u a issuer ev w)
      as (_ & _ & H3 & H4).
    split; assumption.
Qed.

Lemma handlers_submission_count_witness :
  let signer := handlePendingEvmDeposit scriptedEnv "00orch" "mpc-service"
                  ["Issuer::1220abcdef"] MPC_ROOT_PRIVATE_KEY "http://rpc" pendingDeposit in
  let relayer := handleEvmTxOutcomeSignature scriptedEnv "00orch" "relayer"
                   ["Issuer::1220abcdef"] "Issuer::1220abcdef" outcomeEvent in
  fst (signer emptyWorld) = Ok tt
  /\ map choiceOf (submissionsOf (emitted signer emptyWorld))
     = [Some "SignEvmTx"; Some "ProvideEvmOutcomeSig"]
  /\ fst (relayer emptyWorld) = Ok tt
  /\ map choiceOf (submissionsOf (emitted relayer emptyWorld)) = [Some "ClaimEvmDeposit"].
Proof.
  intros signer relayer.
  destruct (handlers_submission_count scriptedEnv emptyWorld) as (S & _ & R).
  assert (Hs : fst (signer emptyWorld) = Ok tt) by (vm_compute; reflexivity).
  assert (Hr : fst (relayer emptyWorld) = Ok tt) by (vm_compute; reflexivity).
  split; [exact Hs | split; [ | split; [exact Hr | ]]].
  - exact (proj2 (S "00orch" "mpc-service" ["Issuer::1220abcdef"] MPC_ROOT_PRIVATE_KEY
                    "http://rpc" pendingDeposit) Hs).
  - exact (proj2 (R "00orch" "relayer" ["Issuer::1220abcdef"] "Issuer::1220abcdef"
                    outcomeEvent) Hr [pendingDeposit] eq_refl).
Defined.

(** C4 as stated fails: for one anchor event the Signer's handler
    succeeds and has submitted two commands, and for one
    [EcdsaSignature] event the Relayer's handler succeeds, has sent the
    transaction to the EVM node and has submitted no command. *)
Lemma signer_submits_two_commands :
  let signer := handlePendingEvmDeposit scriptedEnv "00orch" "mpc-service"
                  ["Issuer::1220abcdef"] MPC_ROOT_PRIVATE_KEY "http://rpc" pendingDeposit in
  let relayer := handleEcdsaSignature scriptedEnv "Issuer::1220abcdef" "http://rpc"
                   signatureEvent in
  fst (signer emptyWorld) = Ok tt
  /\ List.length (submissionsOf (emitted signer emptyWorld)) = 2%nat
  /\ List.length (submissionsOf (emitted signer emptyWorld)) <> 1%nat
  /\ fst (relayer emptyWorld) = Ok tt
  /\ List.length (emitted relayer emptyWorld) = 2%nat
  /\ List.length (submissionsOf (emitted relayer emptyWorld)) = 0%nat.
Proof.
  vm_compute. repeat split; try reflexivity. discriminate.
Qed.

(** C7. When the current-state lookup by [requestId] finds no matching
    anchor contract, a handler that makes the lookup returns normally:
    it has sent the query and nothing else, so no command has been
    submitted to the ledger and no transaction to the EVM node. *)
Theorem no_anchor_no_command (env : Env) (w : World) (issuer : string)
    (ev : CreatedEvent) (contracts : list CreatedEvent) :
  postActiveContracts env (history w) [issuer] "Erc20Vault:PendingEvmDeposit" = Ok contracts ->
  findPending (arg_requestId (createArgument ev)) contracts = None ->
  (forall rpc,
      handleEcdsaSignature env issuer rpc ev w = (Ok tt, after w (pendingQuery issuer))
      /\ submissionsOf (emitted (handleEcdsaSignature env issuer rpc ev) w) = [])
  /\ (forall orchCid u a,
        handleEvmTxOutcomeSignature env orchCid u a issuer ev w
        = (Ok tt, after w (pendingQuery issuer))
        /\ submissionsOf (emitted (handleEvmTxOutcomeSignature env orchCid u a issuer ev) w)
           = []).
Proof.
  intros Hq Hf. split.
  - intros rpc. split; [apply (handleEcdsaSignature_no_anchor _ _ _ _ _ contracts Hq Hf) | ].
    apply handleEcdsaSignature_trace.
  - intros orchCid u a.
    pose proof (handleEvmTxOutcomeSignature_no_anchor env orchCid u a issuer ev w
                  contracts Hq Hf) as E.
    split; [exact E | ].
    unfold emitted. rewrite E. unfold after. cbn [snd history].
    rewrite skipn_app_length. reflexivity.
Qed.

Lemma no_anchor_no_command_witness :
  findPending (arg_requestId (createArgument orphanSignatureEvent)) [pendingDeposit] = None
  /\ handleEcdsaSignature scriptedEnv "Issuer::1220abcdef" "http://rpc" orphanSignatureEvent
       emptyWorld
     = (Ok tt, {| history := [pendingQuery "Issuer::1220abcdef"]; uuidCalls := 0 |}).
Proof.
  assert (Hf : findPending (arg_requestId (createArgument orphanSignatureEvent))
                 [pendingDeposit] = None) by reflexivity.
  split; [exact Hf | ].
  exact (proj1 (proj1 (no_anchor_no_command scriptedEnv emptyWorld "Issuer::1220abcdef"
                         orphanSignatureEvent [pendingDeposit] eq_refl Hf)
                  "http://rpc")).
Defined.

(** ** infra/canton-client.ts: party allocation *)

Lemma firstWithPrefix_spec (hint : string) (details : list PartyDetails) (id : string) :
  firstWithPrefix hint details = Some id ->
  In {| party := Some id |} details /\ startsWith (hint ++ "::") id = true.
Proof.
  unfold firstWithPrefix. intros H.
  destruct (find _ details) as [p | ] eqn:F; [ | discriminate].
  apply find_some in F. destruct F as [Hin Hp].
  destruct p as [[q | ]]; cbn [party] in *; [ | discriminate].
  injection H as ->. split; assumption.
Qed.

Lemma firstWithPrefix_exists (hint : string) (details : list PartyDetails) (q : string) :
  In {| party := Some q |} details -> startsWith (hint ++ "::") q = true ->
  exists id, firstWithPrefix hint details = Some id.
Proof.
  intros Hin Hq. unfold firstWithPrefix.
  destruct (find _ details) as [p | ] eqn:F.
  - apply find_some in F. destruct F as [_ Hp].
    destruct p as [[id | ]]; cbn [party] in *; [exists id; reflexivity | discriminate].
  - apply (find_none _ _ F) in Hin. cbn [party] in Hin. congruence.
Qed.

Lemma startsWith_nonempty (hint id : string) :
  startsWith (hint ++ "::") id = true -> String.eqb id EmptyString = false.
Proof.
  destruct id; [ | reflexivity]. destruct hint; discriminate.
Qed.

(** On "Party already exists", [allocateParty] returns the first listed
    party with the prefix, and only the two requests have been sent. *)
Lemma allocateParty_existing env hint w msg details id :
  postParties env (history w) hint = Throw msg ->
  includes "Party already exists" msg = true ->
  getParties env (history w ++ [PostParties hint])%list = Some details ->
  firstWithPrefix hint details = Some id ->
  allocateParty env hint w = (Ok id, after (after w (PostParties hint)) GetParties).
Proof.
  intros Hp Hi Hg Hf. unfold allocateParty. run_monad. rewrite Hp, Hi.
  cbn [history]. rewrite Hg. fold (firstWithPrefix hint details). rewrite Hf.
  destruct (firstWithPrefix_spec hint details id Hf) as [_ Hs].
  unfold truthy. rewrite (startsWith_nonempty hint id Hs). reflexivity.
Qed.

(** C9, as amended.  When the allocation request fails with "Party
    already exists" and the listing contains a party whose identifier
    starts with [hint::], [allocateParty] returns the first such party
    of the listing instead of throwing.  So a second call with the same
    hint, refused by the ledger, returns the first listed party with the
    prefix: it is the party of the first call exactly when that party is
    the first one listed for the hint. *)
Theorem allocateParty_retry_safe (env : Env) (hint : string) (w : World) :
  (forall msg details q,
      postParties env (history w) hint = Throw msg ->
      includes "Party already exists" msg = true ->
      getParties env (history w ++ [PostParties hint])%list = Some details ->
      In {| party := Some q |} details -> startsWith (hint ++ "::") q = true ->
      exists id,
        fst (allocateParty env hint w) = Ok id
        /\ firstWithPrefix hint details = Some id
        /\ In {| party := Some id |} details
        /\ startsWith (hint ++ "::") id = true)
  /\ (forall id1 w1 msg details id2,
        allocateParty env hint w = (Ok id1, w1) ->
        postParties env (history w1) hint = Throw msg ->
        includes "Party already exists" msg = true ->
        getParties env (history w1 ++ [PostParties hint])%list = Some details ->
        firstWithPrefix hint details = Some id2 ->
        fst (allocateParty env hint w1) = Ok id2
        /\ (id2 = id1 <-> firstWithPrefix hint details = Some id1)).
Proof.
  split.
  - intros msg details q Hp Hi Hg Hin Hq.
    destruct (firstWithPrefix_exists hint details q Hin Hq) as [id Hf].
    destruct (firstWithPrefix_spec hint details id Hf) as [Hin' Hs].
    exists id. rewrite (allocateParty_existing env hint w msg details id Hp Hi Hg Hf).
    repeat split; assumption.
  - intros id1 w1 msg details id2 _ Hp Hi Hg Hf.
    rewrite (allocateParty_existing env hint w1 msg details id2 Hp Hi Hg Hf).
    split; [reflexivity | ]. rewrite Hf.
    split; [intros ->; reflexivity | intros E; injection E as ->; reflexivity].
Qed.

Lemma allocateParty_retry_safe_witness :
  let first := allocateParty partyLedgerEnv "Issuer" emptyWorld in
  first = (Ok "Issuer::1220abcdef", after emptyWorld (PostParties "Issuer"))
  /\ fst (allocateParty partyLedgerEnv "Issuer" (snd first)) = Ok "Issuer::1220abcdef".
Proof.
  intros first.
  assert (E : first = (Ok "Issuer::1220abcdef", after emptyWorld (PostParties "Issuer")))
    by reflexivity.
  split; [exact E | ].
  rewrite E. cbn [snd].
  exact (proj1 (proj2 (allocateParty_retry_safe partyLedgerEnv "Issuer" emptyWorld)
                  "Issuer::1220abcdef" (after emptyWorld (PostParties "Issuer"))
                  "{code: INVALID_ARGUMENT, cause: Party already exists}"
                  [ {| party := Some "Issuer::1220abcdef" |} ] "Issuer::1220abcdef"
                  E eq_refl eq_refl eq_refl eq_refl)).
Defined.

(** C9 as stated fails: the participant lists a party [Issuer::1220aaaa]
    of another namespace ahead of its own.  The first call allocates and
    returns [Issuer::1220bbbb]; the second call is refused with "Party
    already exists", the listing contains parties that start with
    [Issuer::], and the call returns [Issuer::1220aaaa], another party
    than the first call. *)
Lemma allocateParty_twice_differs :
  let first := allocateParty twoNamespaceEnv "Issuer" emptyWorld in
  let second := allocateParty twoNamespaceEnv "Issuer" (snd first) in
  fst first = Ok "Issuer::1220bbbb"
  /\ postParties twoNamespaceEnv (history (snd first)) "Issuer"
     = Throw "{code: INVALID_ARGUMENT, cause: Party already exists}"
  /\ getParties twoNamespaceEnv (history (snd first) ++ [PostParties "Issuer"])%list
     = Some [ {| party := Some "Issuer::1220aaaa" |}; {| party := Some "Issuer::1220bbbb" |} ]
  /\ fst second = Ok "Issuer::1220aaaa"
  /\ fst second <> fst first.
Proof.
  vm_compute. repeat split; try reflexivity. discriminate.
Qed.

(** ** infra/ledger-stream.ts: reconnection and polling *)








(** *** The cursor *)

Lemma cursorAfter_cons (off : Z) (item : Update) (rest : list Update) :
  cursorAfter off (item :: rest) = cursorAfter (cursorAfter off [item]) rest.
Proof. destruct item as [[o | ] c | [o | ] | ]; reflexivity. Qed.

Lemma cursorAfter_app (a b : list Update) :
  forall off, cursorAfter off (a ++ b) = cursorAfter (cursorAfter off a) b.
Proof.
  induction a as [ | x a IH]; intros off; [reflexivity | ].
  rewrite <- app_comm_cons, cursorAfter_cons, IH, <- cursorAfter_cons. reflexivity.
Qed.






(** *** The polling loop *)
















(** ** infra/ledger-stream.ts: [close] *)

(** X11. [close()] is idempotent: a second call changes nothing and
    performs no action. *)
Theorem close_idempotent (s : Stream) : close (fst (close s)) = (fst (close s), []).
Proof. unfold close. cbn. destruct (ws s), (reconnectTimer s); reflexivity. Qed.

(** [close()] cancels the pending reconnect timer and tears down the
    socket. *)
Lemma close_tears_down (s : Stream) :
  (timerPending s <> None -> reconnectTimer s = true) ->
  let '(s', acts) := close s in
  closed s' = true /\ ws s' = false /\ timerPending s' = None
  /\ (ws s = true -> In WsClose acts)
  /\ (reconnectTimer s = true -> In ClearTimeout acts).
Proof.
  intros Ht. unfold close. cbn.
  destruct (ws s), (reconnectTimer s); cbn; repeat split; auto; try discriminate;
    (destruct (timerPending s); [ | reflexivity]; discriminate (Ht ltac:(discriminate))).
Qed.

(** X12. After [close()] the stream stays closed, and no callback other
    than the delivery of a WebSocket message invokes the owner's
    handler: the socket's [close] and [error] events, the reconnect
    timer and the polling loop all test [closed]. *)
Theorem closed_silent_but_messages opts s e s' acts :
  closed s = true -> (forall m, e <> WsMessage m) ->
  step opts s e = Some (s', acts) ->
  closed s' = true /\ handlerCalls acts = [].
Proof.
  intros Hc He H.
  assert (Fin : forall s0 a0, Some (s0, a0) = Some (s', acts) ->
                              closed s0 = true -> handlerCalls a0 = [] ->
                              closed s' = true /\ handlerCalls acts = []).
  { intros s0 a0 E C A. injection E as <- <-. split; assumption. }
  destruct e; cbn [step] in H.
  - destruct (wire s); try discriminate H. apply (Fin _ _ H); [unfold setWire, setPollLoop; cbn [closed]; try rewrite Hc; reflexivity | reflexivity].
  - exfalso. exact (He m eq_refl).
  - destruct (wire s); try discriminate H; cbn [setWire closed] in H; rewrite Hc in H;
      (apply (Fin _ _ H); [unfold setWire, setPollLoop; cbn [closed]; try rewrite Hc; reflexivity | reflexivity]).
  - destruct (wire s); try discriminate H; rewrite Hc in H;
      (apply (Fin _ _ H); [unfold setWire, setPollLoop; cbn [closed]; try rewrite Hc; reflexivity | reflexivity]).
  - destruct (timerPending s); try discriminate H. unfold connect in H.
    cbn [closed] in H. rewrite Hc in H. apply (Fin _ _ H); [unfold setWire, setPollLoop; cbn [closed]; try rewrite Hc; reflexivity | reflexivity].
  - destruct (pollLoop s); try discriminate H. destruct r as [updates | ].
    + assert (E : pollItems opts s updates = (s, [], false))
        by (destruct updates; cbn [pollItems]; [ | rewrite Hc]; reflexivity).
      rewrite E in H. unfold pollIter in H. rewrite Hc in H.
      apply (Fin _ _ H); [unfold setWire, setPollLoop; cbn [closed]; try rewrite Hc; reflexivity | reflexivity].
    + unfold pollCatch in H. rewrite Hc in H. apply (Fin _ _ H); [unfold setWire, setPollLoop; cbn [closed]; try rewrite Hc; reflexivity | reflexivity].
  - destruct (pollLoop s); try discriminate H. unfold pollIter in H. rewrite Hc in H.
    apply (Fin _ _ H); [unfold setWire, setPollLoop; cbn [closed]; try rewrite Hc; reflexivity | reflexivity].
  - apply (Fin _ _ H); [reflexivity | ].
    unfold close. cbn. destruct (reconnectTimer s), (ws s); reflexivity.
Qed.

Lemma closed_silent_but_messages_witness :
  let s1 := {| currentOffset := 42; closed := true; ws := false;
               reconnectAttempt := 0; reconnectTimer := false; wire := Closing;
               timerPending := None; pollLoop := NotPolling |} in
  step defaultOptions s1 WsClosed = Some (setWire s1 NoSocket, [])
  /\ closed (setWire s1 NoSocket) = true
  /\ handlerCalls [] = [].
Proof.
  intros s1. split; [reflexivity | ].
  exact (closed_silent_but_messages defaultOptions s1 WsClosed (setWire s1 NoSocket) []
           eq_refl (fun m E => match E with end) eq_refl).
Defined.

(** C6, the defect.  The stream is opened, the owner calls [close()],
    and a message that arrives while the socket is closing is still
    handed to the owner's handler: the [message] callback does not test
    [closed]. *)
Theorem handler_invoked_after_close (opts : LedgerStreamOptions) (item : Update) :
  let s1 := {| currentOffset := beginExclusive opts; closed := true; ws := false;
               reconnectAttempt := 0; reconnectTimer := false; wire := Closing;
               timerPending := None; pollLoop := NotPolling |} in
  run opts (fst (createLedgerStream opts)) [WsOpen; CallClose]
  = Some (s1, [WsSend (beginExclusive opts); WsClose])
  /\ closed s1 = true
  /\ exists s2 acts,
       step opts s1 (WsMessage (MsgUpdate item)) = Some (s2, acts)
       /\ handlerCalls acts = [item].
Proof.
  intros s1. split; [reflexivity | ]. split; [reflexivity | ].
  subst s1. cbn [step wire]. unfold handleUpdate, messageCatch, reportError.
  destruct (onUpdate opts item), (extractOffset item), (onError opts) as [callback | ];
    try destruct (callback FailedToParse); cbn;
    eexists; eexists; (split; reflexivity).
Qed.

(** ** mpc/crypto.ts: layout, errors and ambiguity of the packed encoding *)


Lemma join_cons (x : string) (xs : list string) : join (x :: xs) = x ++ join xs.
Proof. unfold join. destruct xs; simpl; [now rewrite string_app_nil_r | reflexivity]. Qed.



Lemma allHex_app (a b : string) : allHex (a ++ b) = allHex a && allHex b.
Proof.
  induction a as [ | c a IH]; [reflexivity | ].
  simpl. destruct (charCodeToBase16 c); [exact IH | reflexivity].
Qed.

Lemma allHex_replicate_zero (n : nat) : allHex (replicate n "0") = true.
Proof. induction n as [ | n IH]; [reflexivity | exact IH]. Qed.

Lemma allHex_padStart (n : nat) (s : string) : allHex (padStart n "0" s) = allHex s.
Proof. unfold padStart. rewrite allHex_app, allHex_replicate_zero. reflexivity. Qed.


Lemma allHex_toHexDigits (fuel : nat) :
  forall n acc, allHex (toHexDigits fuel n acc) = allHex acc.
Proof.
  induction fuel as [ | f IH]; intros n acc; [reflexivity | ].
  cbn [toHexDigits]. destruct (n <? 16)%N eqn:Hlt.
  - apply N.ltb_lt in Hlt. cbn [allHex].
    rewrite (charCodeToBase16_hexDigit n Hlt). reflexivity.
  - rewrite IH. cbn [allHex].
    rewrite (charCodeToBase16_hexDigit (n mod 16)) by (apply N.mod_lt; lia).
    reflexivity.
Qed.

Lemma allHex_toString16 (z : Z) : allHex (toString16 z) = (0 <=? z)%Z.
Proof.
  destruct z as [ | q | q]; [reflexivity | | reflexivity].
  unfold toString16, hexOfN. rewrite allHex_toHexDigits. reflexivity.
Qed.

(** [hexToBytes] throws exactly on a character that is not a
    hexadecimal digit. *)
Lemma hexToBytes_None_iff (s : string) : hexToBytes s = None <-> allHex s = false.
Proof.
  split.
  - intros H. destruct (allHex s) eqn:E; [ | reflexivity].
    destruct (hexToBytes_allHex s E) as [bs Hbs]. congruence.
  - intros H. destruct (hexToBytes s) as [bs | ] eqn:E; [ | reflexivity].
    unfold hexToBytes in E. destruct (Nat.odd (String.length s));
      apply decodePairs_allHex in E; [cbn [allHex] in E | ]; simpl in E; congruence.
Qed.




Lemma utf8_app (a b : string) : utf8 (a ++ b) = (utf8 a ++ utf8 b)%list.
Proof.
  unfold utf8, list_byte_of_string.
  induction a as [ | c a IH]; [reflexivity | ].
  cbn [append list_ascii_of_string map]. rewrite IH. reflexivity.
Qed.

(** X3. The packed encoding has no delimiters, so it does not tell the
    function signature from the arguments: moving a tail [t] of the
    signature into a first argument that spells its bytes gives the same
    packed string and the same request identifier. *)
Theorem computeRequestId_signature_args_ambiguity (sender : string)
    (p : EvmTransactionParams) (f t : string) (a : list string)
    (caip2Id : string) (keyVersion : Z) (path : string) :
  packParams (withCall p (f ++ t) a) = packParams (withCall p f (textToHex t :: a))
  /\ computeRequestId sender (withCall p (f ++ t) a) caip2Id keyVersion path
     = computeRequestId sender (withCall p f (textToHex t :: a)) caip2Id keyVersion path.
Proof.
  assert (E : packParams (withCall p (f ++ t) a)
              = packParams (withCall p f (textToHex t :: a))).
  { unfold packParams, withCall, textToHex.
    cbn [to functionSignature args value nonce gasLimit maxFeePerGas maxPriorityFee chainId].
    rewrite join_cons, utf8_app, bytesToHex_app, !string_app_assoc. reflexivity. }
  split; [exact E | ]. unfold computeRequestId. rewrite E. reflexivity.
Qed.

(** ** mpc-service/signer.ts: what the child key depends on *)

Lemma add_mod_cancel_r (a b e n : Z) :
  (0 < n)%Z -> ((a + e) mod n = (b + e) mod n <-> a mod n = b mod n)%Z.
Proof.
  intros Hn. split; intros H.
  - assert (Ea : (a mod n = ((a + e) mod n - e) mod n)%Z)
      by (rewrite Zminus_mod_idemp_l; f_equal; lia).
    assert (Eb : (b mod n = ((b + e) mod n - e) mod n)%Z)
      by (rewrite Zminus_mod_idemp_l; f_equal; lia).
    rewrite Ea, Eb, H. reflexivity.
  - assert (Ea : ((a + e) mod n = (a mod n + e) mod n)%Z)
      by (rewrite Zplus_mod_idemp_l; reflexivity).
    assert (Eb : ((b + e) mod n = (b mod n + e) mod n)%Z)
      by (rewrite Zplus_mod_idemp_l; reflexivity).
    rewrite Ea, Eb, H. reflexivity.
Qed.

(** X4. For one derivation context, two root keys derive the same child
    key exactly when they are congruent modulo the curve order: the
    spelling of the root (case, leading zeros) and multiples of the
    order do not matter, and distinct roots below the order never
    collide. *)
Theorem deriveChildPrivateKey_same_child_iff
    (root1 root2 predecessorId path caip2Id : string) (a b : Z) :
  BigInt root1 = Some a -> BigInt root2 = Some b ->
  (deriveChildPrivateKey root1 predecessorId path caip2Id
   = deriveChildPrivateKey root2 predecessorId path caip2Id
   <-> (a mod CURVE_ORDER = b mod CURVE_ORDER)%Z).
Proof.
  intros Ha Hb. pose proof CURVE_ORDER_bounds as Hn.
  rewrite (deriveChildPrivateKey_value root1 predecessorId path caip2Id a Ha).
  rewrite (deriveChildPrivateKey_value root2 predecessorId path caip2Id b Hb).
  set (e := epsilonOf (derivationPathOf predecessorId path caip2Id)).
  rewrite <- (add_mod_cancel_r a b e CURVE_ORDER) by lia.
  pose proof (Z.mod_pos_bound (a + e) CURVE_ORDER ltac:(lia)) as Ba.
  pose proof (Z.mod_pos_bound (b + e) CURVE_ORDER ltac:(lia)) as Bb.
  split; intros H.
  - apply (f_equal (fun o => match o with Some k => BigInt k | None => None end)) in H.
    cbv beta iota in H. rewrite !scalarHex_BigInt in H by lia.
    injection H as H. exact H.
  - rewrite H. reflexivity.
Qed.

Lemma deriveChildPrivateKey_same_child_iff_witness :
  BigInt MPC_ROOT_PRIVATE_KEY
  = Some 0x1234567890abcdef1234567890abcdef1234567890abcdef1234567890abcdef%Z
  /\ BigInt MPC_ROOT_PRIVATE_KEY_UPPER
     = Some 0x1234567890abcdef1234567890abcdef1234567890abcdef1234567890abcdef%Z
  /\ deriveChildPrivateKey MPC_ROOT_PRIVATE_KEY PREDECESSOR_ID PATH CAIP2_ID
     = deriveChildPrivateKey MPC_ROOT_PRIVATE_KEY_UPPER PREDECESSOR_ID PATH CAIP2_ID.
Proof.
  split; [reflexivity | split; [reflexivity | ]].
  exact (proj2 (deriveChildPrivateKey_same_child_iff MPC_ROOT_PRIVATE_KEY
                  MPC_ROOT_PRIVATE_KEY_UPPER PREDECESSOR_ID PATH CAIP2_ID _ _
                  eq_refl eq_refl) eq_refl).
Defined.

(** ** mpc-service/signer.ts: the recoverable signature *)

Lemma firstn_skipn_split {A} (n m : nat) (l : list A) :
  (firstn n l ++ firstn m (skipn n l))%list = firstn (n + m) l.
Proof.
  revert l. induction n as [ | n IH]; intros l; [reflexivity | ].
  destruct l as [ | x l]; [simpl; now rewrite firstn_nil | ].
  simpl. rewrite IH. reflexivity.
Qed.

(** X5. When [secp256k1.sign] answers with the 65 bytes of the
    recovered format, [signEvmTxHash] returns [r] and [s] as 64
    hexadecimal characters each and [v] as the first byte: the recovery
    byte followed by the bytes of [r] and of [s] is the signature
    again. *)
Theorem signEvmTxHash_splits_signature (env : Env) (privateKey txHash : string)
    (msgHash privKeyBytes sig : list byte) :
  toBytes txHash = Some msgHash -> toBytes privateKey = Some privKeyBytes ->
  secp256k1_sign_recovered env msgHash privKeyBytes = Some sig ->
  List.length sig = 65%nat ->
  exists r s v rb sb,
    signEvmTxHash env privateKey txHash = Some (r, s, v)
    /\ String.length r = 64%nat /\ String.length s = 64%nat
    /\ hexToBytes r = Some rb /\ hexToBytes s = Some sb
    /\ (0 <= v < 256)%Z
    /\ (byteOfN (Z.to_N v) :: rb ++ sb)%list = sig.
Proof.
  intros Ht Hk Hs Hl.
  destruct sig as [ | b0 rest]; [discriminate Hl | ].
  assert (Hr : List.length rest = 64%nat) by (simpl in Hl; lia).
  exists (bytesToHex (firstn 32 rest)), (bytesToHex (firstn 32 (skipn 32 rest))),
    (Z.of_N (Byte.to_N b0)), (firstn 32 rest), (firstn 32 (skipn 32 rest)).
  unfold signEvmTxHash. rewrite Ht, Hk, Hs.
  split; [reflexivity | ].
  rewrite !bytesToHex_length, !length_firstn, !length_skipn, Hr.
  split; [reflexivity | split; [reflexivity | ]].
  split; [apply hexToBytes_decodes, decodes_bytesToHex | ].
  split; [apply hexToBytes_decodes, decodes_bytesToHex | ].
  pose proof (to_N_lt_256 b0) as Hb.
  split; [lia | ].
  rewrite N2Z.id, byteOfN_to_N. apply (f_equal (cons b0)).
  rewrite firstn_skipn_split. apply firstn_all2. lia.
Qed.

Lemma signEvmTxHash_splits_signature_witness :
  exists r s v,
    signEvmTxHash scriptedEnv MPC_ROOT_PRIVATE_KEY
      "0x4ab52d8be7e3d2b7608fd64947f3e51b2cccea2f29d1f72fa0eea740577dfe1a"
    = Some (r, s, v)
    /\ v = 0%Z
    /\ r = "4ab52d8be7e3d2b7608fd64947f3e51b2cccea2f29d1f72fa0eea740577dfe1a"
    /\ s = "1234567890abcdef1234567890abcdef1234567890abcdef1234567890abcdef".
Proof.
  match goal with
  | |- exists r s v, signEvmTxHash ?env ?k ?h = _ /\ _ =>
      destruct (signEvmTxHash_splits_signature env k h
                  (bytesOf (slice 2 h)) (bytesOf (slice 2 k))
                  (x00 :: bytesOf (slice 2 h) ++ bytesOf (slice 2 k))%list
                  eq_refl eq_refl eq_refl eq_refl)
        as (r & s & v & rb & sb & E & _)
  end.
  exists r, s, v. split; [exact E | ].
  vm_compute in E. injection E as <- <- <-. repeat split.
Defined.

(** ** mpc-service/deposit-handler.ts: the chain id *)

Lemma parseHexAcc_total (s : string) :
  allHex s = true -> forall a, exists v, parseHexAcc s a = Some v.
Proof.
  induction s as [ | c s IH]; intros H a; [exists a; reflexivity | ].
  cbn [allHex] in H. cbn [parseHexAcc].
  destruct (charCodeToBase16 c); [apply IH; exact H | discriminate].
Qed.

Lemma stripLeadingZeros_cases (s : string) :
  (exists r, s = String "0" r /\ stripLeadingZeros s = stripLeadingZeros r)
  \/ stripLeadingZeros s = s.
Proof.
  destruct s as [ | c r]; [right; reflexivity | ].
  destruct (Ascii.ascii_dec c "0") as [-> | Hc].
  - left. exists r. split; reflexivity.
  - right. destruct c as [[] [] [] [] [] [] [] []]; try reflexivity. congruence.
Qed.

(** The leading zeros removed by the handler carry no value. *)
Lemma parseHexAcc_stripLeadingZeros (s : string) :
  parseHexAcc (stripLeadingZeros s) 0 = parseHexAcc s 0.
Proof.
  induction s as [ | c r IH]; [reflexivity | ].
  destruct (stripLeadingZeros_cases (String c r)) as [(r' & E & S) | S].
  - injection E as -> ->. rewrite S, IH. reflexivity.
  - rewrite S. reflexivity.
Qed.

Lemma allHex_stripLeadingZeros (s : string) :
  allHex s = true -> allHex (stripLeadingZeros s) = true.
Proof.
  induction s as [ | c r IH]; intros H; [reflexivity | ].
  destruct (stripLeadingZeros_cases (String c r)) as [(r' & E & S) | S].
  - injection E as -> ->. rewrite S. apply IH. exact H.
  - rewrite S. exact H.
Qed.

(** On hexadecimal digits, the chain id is read at its value and
    converted to a [number]. *)
Lemma hexChainIdToDecimal_value (h : string) :
  allHex h = true ->
  hexChainIdToDecimal h = option_map (fun v => Number (Z.of_N v)) (parseHexAcc h 0).
Proof.
  intros Hh. unfold hexChainIdToDecimal.
  destruct (String.eqb (stripLeadingZeros h) EmptyString) eqn:E.
  - apply String.eqb_eq in E. rewrite <- parseHexAcc_stripLeadingZeros, E. reflexivity.
  - apply String.eqb_neq in E.
    rewrite BigInt_0x by (try apply allHex_stripLeadingZeros; assumption).
    rewrite parseHexAcc_stripLeadingZeros.
    destruct (parseHexAcc h 0); reflexivity.
Qed.

Lemma parseHexAcc_bytesToHex_value (bs : list byte) :
  parseHexAcc (bytesToHex bs) 0 = Some (beValue bs).
Proof. exact (parseHexAcc_bytesToHex bs 0%N). Qed.

Lemma parseHexAcc_pad32 (n : Z) :
  (0 <= n < 256 ^ 32)%Z -> parseHexAcc (pad32 n) 0 = Some (Z.to_N n).
Proof.
  intros Hn. unfold pad32. change 64%nat with (2 * 32)%nat.
  rewrite padStart_toString16;
    [ | lia | change (Z.of_nat 32) with 32%Z; exact Hn].
  rewrite parseHexAcc_bytesToHex_value.
  rewrite beValue_beBytes; [reflexivity | ].
  apply N2Z.inj_lt. rewrite Z2N.id, N2Z.inj_pow by lia.
  change (Z.of_N 256 ^ Z.of_N (N.of_nat 32))%Z with (256 ^ 32)%Z. lia.
Qed.

(** *** Numbers: exact below [2^53] *)

Lemma roundToDouble_small (m : Z) : (0 <= m < 2 ^ 53)%Z -> roundToDouble m = Some m.
Proof.
  intros Hm. unfold roundToDouble.
  assert (H : (Z.log2 m + 1 <=? 53)%Z = true).
  { apply Z.leb_le. destruct (Z.eq_dec m 0) as [-> | Hne]; [simpl; lia | ].
    assert (Z.log2 m < 53)%Z by (apply Z.log2_lt_pow2; lia). lia. }
  rewrite H. reflexivity.
Qed.

Lemma roundToDouble_large (m v : Z) :
  (2 ^ 53 <= m)%Z -> roundToDouble m = Some v -> (2 ^ 53 <= v)%Z.
Proof.
  intros Hm. unfold roundToDouble.
  assert (Hl : (53 <= Z.log2 m)%Z) by (apply Z.log2_le_pow2; lia).
  assert (H : (Z.log2 m + 1 <=? 53)%Z = false) by (apply Z.leb_gt; lia).
  rewrite H.
  set (shift := (Z.log2 m + 1 - 53)%Z).
  assert (Hs : (1 <= shift)%Z) by (unfold shift; lia).
  set (q := Z.shiftr m shift).
  assert (Hq : (2 ^ 52 <= q)%Z).
  { unfold q. rewrite Z.shiftr_div_pow2 by lia.
    pose proof (Z.log2_spec m ltac:(lia)) as [Hlo _].
    replace (Z.log2 m) with (52 + shift)%Z in Hlo by (unfold shift; lia).
    rewrite Z.pow_add_r in Hlo by lia.
    apply Z.div_le_lower_bound; [apply Z.pow_pos_nonneg; lia | ]. lia. }
  match goal with
  | |- context [Z.shiftl (if ?c then (q + 1)%Z else q) shift] =>
      set (q' := if c then (q + 1)%Z else q);
      assert (Hq' : (2 ^ 52 <= q')%Z) by (unfold q'; destruct c; lia)
  end.
  destruct (2 ^ 1024 <=? _)%Z; [discriminate | ].
  intros E. injection E as <-. rewrite Z.shiftl_mul_pow2 by lia.
  assert (Hp : (2 ^ 1 <= 2 ^ shift)%Z) by (apply Z.pow_le_mono_r; lia).
  change (2 ^ 53)%Z with (2 ^ 52 * 2 ^ 1)%Z.
  apply Z.mul_le_mono_nonneg; lia.
Qed.

Lemma roundsTo_small (w v : Z) :
  (0 <= v < 2 ^ 53)%Z -> (0 <= w)%Z -> roundsTo w v = true -> w = v.
Proof.
  intros Hv Hw. unfold roundsTo.
  destruct (roundToDouble w) as [r | ] eqn:E; [ | discriminate].
  intros H. apply Z.eqb_eq in H. subst r.
  destruct (Z_lt_le_dec w (2 ^ 53)) as [Hlt | Hge].
  - rewrite roundToDouble_small in E by lia. congruence.
  - pose proof (roundToDouble_large w v Hge E). lia.
Qed.

Lemma shortestDecimal_small (v : Z) :
  (0 <= v < 2 ^ 53)%Z -> forall j, shortestDecimal j v = v.
Proof.
  intros Hv. induction j as [ | j IH]; [reflexivity | ].
  cbn [shortestDecimal].
  set (P := (10 ^ Z.of_nat (S j))%Z).
  assert (HP : (0 < P)%Z) by (apply Z.pow_pos_nonneg; lia).
  set (a := (v / P * P)%Z). set (b := (a + P)%Z).
  assert (Ha : (0 <= a)%Z).
  { unfold a. apply Z.mul_nonneg_nonneg; [apply Z.div_pos; lia | lia]. }
  assert (Hb : (0 <= b)%Z) by (unfold b; lia).
  assert (Hbv : (v < b)%Z).
  { unfold b, a. pose proof (Z.div_mod v P ltac:(lia)).
    pose proof (Z.mod_pos_bound v P HP). lia. }
  assert (Eb : roundsTo b v = false).
  { destruct (roundsTo b v) eqn:E; [ | reflexivity].
    apply roundsTo_small in E; lia. }
  rewrite Eb, andb_false_r.
  destruct (roundsTo a v) eqn:Ea; [apply roundsTo_small in Ea; lia | exact IH].
Qed.

Lemma Number_small (m : Z) : (0 <= m < 2 ^ 53)%Z -> Number m = Finite m.
Proof.
  intros Hm. unfold Number. rewrite Z.abs_eq by lia.
  rewrite roundToDouble_small by exact Hm. f_equal.
  destruct (Z.eq_dec m 0) as [-> | Hne]; [reflexivity | ].
  rewrite Z.sgn_pos by lia. lia.
Qed.

Lemma numberToString_small (v : Z) :
  (0 <= v < 2 ^ 53)%Z -> numberToString (Finite v) = decimal v.
Proof.
  intros Hv. unfold numberToString.
  assert (E : (v <? 0)%Z = false) by (apply Z.ltb_ge; lia). rewrite E.
  unfold doubleToString. rewrite shortestDecimal_small by exact Hv.
  assert (E2 : (v <? 10 ^ 21)%Z = true).
  { apply Z.ltb_lt. assert (2 ^ 53 < 10 ^ 21)%Z by reflexivity. lia. }
  rewrite E2. reflexivity.
Qed.

(** From [2^53] on a [number] is rounded, and printed with the fewest
    digits that read back. *)
Example Number_rounds :
  Number 0x20000000000001 = Finite 9007199254740992
  /\ numberToString (Number 0x20000000000001) = "9007199254740992"
  /\ numberToString (Number (2 ^ 60)) = "1152921504606847000"
  /\ numberToString (Number (10 ^ 21)) = "1e+21"
  /\ numberToString (Number (2 ^ 256 - 1)) = "1.157920892373162e+77"
  /\ numberToString (Number (2 ^ 1024)) = "Infinity".
Proof. vm_compute. repeat split. Qed.

(** X6. [hexChainIdToDecimal] reads a hexadecimal chain id at its value
    and converts it to a [number]: leading zeros are ignored, and the
    empty string and a string of zeros read as 0.  A chain id below
    [2^53] is kept exactly and prints in decimal, as the CAIP-2
    identifier needs it; a larger one is rounded to a double.  A chain id
    written by [pad32] of [buildEvmParams] is read back as the number of
    its value. *)
Theorem hexChainIdToDecimal_spec (h : string) :
  allHex h = true ->
  (exists v,
      parseHexAcc h 0 = Some v
      /\ hexChainIdToDecimal h = Some (Number (Z.of_N v))
      /\ ((v < 2 ^ 53)%N ->
          hexChainIdToDecimal h = Some (Finite (Z.of_N v))
          /\ numberToString (Finite (Z.of_N v)) = decimal (Z.of_N v)))
  /\ (forall k, hexChainIdToDecimal (replicate k "0" ++ h) = hexChainIdToDecimal h)
  /\ (forall n, (0 <= n < 256 ^ 32)%Z -> hexChainIdToDecimal (pad32 n) = Some (Number n)).
Proof.
  intros Hh. split; [ | split].
  - destruct (parseHexAcc_total h Hh 0%N) as [v Hv].
    exists v. split; [exact Hv | ].
    rewrite (hexChainIdToDecimal_value h Hh), Hv. split; [reflexivity | ].
    intros Hs.
    assert (Hz : (0 <= Z.of_N v < 2 ^ 53)%Z).
    { split; [lia | ]. change (2 ^ 53)%Z with (Z.of_N (2 ^ 53)). lia. }
    cbn [option_map]. rewrite (Number_small _ Hz).
    split; [reflexivity | apply numberToString_small; exact Hz].
  - intros k.
    rewrite !hexChainIdToDecimal_value
      by (rewrite ?allHex_app, ?allHex_replicate_zero; assumption).
    f_equal. induction k as [ | k IH]; [reflexivity | exact IH].
  - intros n Hn.
    assert (Hp : allHex (pad32 n) = true).
    { unfold pad32. rewrite allHex_padStart, allHex_toString16. apply Z.leb_le. lia. }
    rewrite (hexChainIdToDecimal_value _ Hp), parseHexAcc_pad32 by exact Hn.
    cbn [option_map]. rewrite Z2N.id by lia. reflexivity.
Qed.

Lemma hexChainIdToDecimal_spec_witness :
  allHex (chainId sampleEvmParams) = true
  /\ hexChainIdToDecimal (chainId sampleEvmParams) = Some (Finite 11155111)
  /\ numberToString (Finite 11155111) = "11155111"
  /\ hexChainIdToDecimal (pad32 11155111) = Some (Finite 11155111).
Proof.
  destruct (hexChainIdToDecimal_spec (chainId sampleEvmParams) eq_refl)
    as ((v & Hv & _ & S) & _ & P).
  vm_compute in Hv. injection Hv as <-.
  destruct (S eq_refl) as [E T].
  split; [reflexivity | split; [exact E | split; [exact T | ]]].
  rewrite (P 11155111%Z) by (split; [discriminate | reflexivity]). reflexivity.
Defined.

(** ** mpc-service/deposit-handler.ts: edge behaviour of the Signer *)



(** ** relayer/tx-outcome-handler.ts: the claim *)



(** X9. When the anchor is found but its call has fewer than two
    arguments, the Relayer's outcome handler throws and has submitted
    nothing: only the query was sent. *)
Theorem handleEvmTxOutcomeSignature_short_call (env : Env) (orchCid u : string)
    (a : list string) (issuer : string) (ev : CreatedEvent) (w : World)
    (contracts : list CreatedEvent) (anchor : CreatedEvent)
    (evmParams : EvmTransactionParams) :
  postActiveContracts env (history w) [issuer] "Erc20Vault:PendingEvmDeposit" = Ok contracts ->
  findPending (arg_requestId (createArgument ev)) contracts = Some anchor ->
  arg_evmParams (createArgument anchor) = Some evmParams ->
  (List.length (args evmParams) < 2)%nat ->
  handleEvmTxOutcomeSignature env orchCid u a issuer ev w
  = (Throw "SyntaxError: BigInt", after w (pendingQuery issuer)).
Proof.
  intros Hq Hf He Hl.
  unfold handleEvmTxOutcomeSignature. run_monad.
  rewrite Hq. cbn [history]. rewrite Hf, He. cbn [args].
  assert (Hn : nth_error (args evmParams) 1 = None) by (apply nth_error_None; lia).
  rewrite Hn. reflexivity.
Qed.

Lemma handleEvmTxOutcomeSignature_short_call_witness :
  handleEvmTxOutcomeSignature (scriptedWith [pendingWithOneArgument] (Ok ReceiptSuccess))
    "00orch" "relayer" ["Issuer::1220abcdef"] "Issuer::1220abcdef" outcomeEvent emptyWorld
  = (Throw "SyntaxError: BigInt", after emptyWorld (pendingQuery "Issuer::1220abcdef")).
Proof.
  apply (handleEvmTxOutcomeSignature_short_call _ _ _ _ _ _ _ [pendingWithOneArgument]
           pendingWithOneArgument
           (withCall sampleEvmParams "approve(address)"
              ["000000000000000000000000d8da6bf26964af9d7eed9e03e53415d37aa96045"]));
    try reflexivity.
  simpl. lia.
Defined.

(** ** The Signer and the Relayer agree on the transaction *)

(** X10. The raw transaction the Relayer broadcasts is the one whose
    hash the Signer waits for: when the Signer's handler succeeds for an
    anchor, any [EcdsaSignature] event that carries the [r], [s], [v] it
    submitted, and whose lookup finds that anchor, makes the Relayer send
    a transaction whose Keccak-256 hash is the hash of the Signer's
    receipt request. *)
Theorem relayer_broadcasts_what_signer_awaits (env : Env) (orchCid u : string)
    (a : list string) (root rpcS : string) (anchor : CreatedEvent) (w : World) :
  let c := handlePendingEvmDeposit env orchCid u a root rpcS anchor in
  fst (c w) = Ok tt ->
  exists r s v raw hash argument,
    nth_error (submissionsOf (emitted c w)) 0
    = Some (exerciseSubmission env (uuidCalls w) u a orchCid "SignEvmTx"
              (argument :: [("r", JStr r); ("s", JStr s); ("v", JNum v)]))
    /\ In (EthWaitForTransactionReceipt rpcS hash) (emitted c w)
    /\ keccak256 (slice 2 raw) = Some hash
    /\ forall issuer rpcR sev w' contracts,
         arg_r (createArgument sev) = Some r ->
         arg_s (createArgument sev) = Some s ->
         arg_v (createArgument sev) = Some v ->
         postActiveContracts env (history w') [issuer] "Erc20Vault:PendingEvmDeposit"
         = Ok contracts ->
         findPending (arg_requestId (createArgument sev)) contracts = Some anchor ->
         emitted (handleEcdsaSignature env issuer rpcR sev) w'
         = [pendingQuery issuer; EthSendRawTransaction rpcR raw].
Proof.
  intros c. subst c. unfold handlePendingEvmDeposit, emitted at 1 2.
  run_monad. split_cases.
  all: cbn [fst]; intros Hok; try discriminate Hok.
  all: cbn [snd history uuidCalls].
  all: rewrite <- ?app_assoc, ?skipn_app_length.
  all: cbn [submissionsOf flat_map app nth_error].
  all: do 6 eexists.
  all: split; [reflexivity | ].
  all: split; [cbn [In]; eauto 6 | ].
  all: split; [eassumption | ].
  all: intros issuer rpcR sev w' contracts Hr Hs Hv Hq Hf.
  all: unfold handleEcdsaSignature, emitted; run_monad.
  all: rewrite Hq; cbn [history]; rewrite Hf, Hr, Hs, Hv; cbn [jsString].
  all: match goal with
       | H : arg_evmParams _ = Some _ |- _ => rewrite H
       end.
  all: match goal with
       | H : reconstructSignedTx _ _ _ _ _ = Some _ |- _ => rewrite H
       end.
  all: match goal with
       | |- context [ethSendRawTransaction ?e ?h ?x ?y] =>
           destruct (ethSendRawTransaction e h x y)
       end.
  all: cbn [snd history]; rewrite <- ?app_assoc, skipn_app_length; reflexivity.
Qed.

Lemma relayer_broadcasts_what_signer_awaits_witness :
  let c := handlePendingEvmDeposit scriptedEnv "00orch" "mpc-service"
             ["Issuer::1220abcdef"] MPC_ROOT_PRIVATE_KEY "http://rpc" pendingDeposit in
  fst (c emptyWorld) = Ok tt
  /\ exists raw hash,
       In (EthWaitForTransactionReceipt "http://rpc" hash) (emitted c emptyWorld)
       /\ keccak256 (slice 2 raw) = Some hash.
Proof.
  intros c.
  assert (Hok : fst (c emptyWorld) = Ok tt) by (vm_compute; reflexivity).
  split; [exact Hok | ].
  destruct (relayer_broadcasts_what_signer_awaits scriptedEnv "00orch" "mpc-service"
              ["Issuer::1220abcdef"] MPC_ROOT_PRIVATE_KEY "http://rpc" pendingDeposit
              emptyWorld Hok)
    as (r & s & v & raw & hash & argument & _ & Hin & Hk & _).
  exists raw, hash. split; assumption.
Defined.
